(** * Verification of the LSD resting-state pipeline configuration

    Shallow embedding of [src/clustering/mask_surface.py] and
    [src/lsd_lemon/lsd_resting.py], followed by the properties proved
    about them. *)

From Stdlib Require Import ZArith Ascii String Floats.PrimFloat.
From stdpp Require Import gmap strings list.

Local Open Scope string_scope.

(** ** Python results and exceptions *)

(** The exceptions the embedded code can raise, named by their Python class. *)
Inductive exn : Type :=
| UnboundLocalError (var : string)
| IndexError
| ZeroDivisionError
| ValueError
| IOError (path : string)
| DestinationConflictError.

Definition exn_name (e : exn) : string :=
  match e with
  | UnboundLocalError _ => "UnboundLocalError"
  | IndexError => "IndexError"
  | ZeroDivisionError => "ZeroDivisionError"
  | ValueError => "ValueError"
  | IOError _ => "IOError"
  | DestinationConflictError => "DestinationConflictError"
  end.

Inductive result (A : Type) : Type :=
| Ok (a : A)
| Raise (e : exn).
Arguments Ok {A} a.
Arguments Raise {A} e.

#[global] Instance result_ret : MRet result := fun A a => Ok a.
#[global] Instance result_bind : MBind result := fun A B f m =>
  match m with
  | Ok a => f a
  | Raise e => Raise e
  end.

Definition succeeds {A} (r : result A) : Prop := exists a, r = Ok a.

(** A local variable that is assigned on some paths only: reading it while it
    is still unbound raises [UnboundLocalError]. *)
Definition read_local {A} (name : string) (v : option A) : result A :=
  match v with
  | Some a => Ok a
  | None => Raise (UnboundLocalError name)
  end.

(** Iteration of a fallible loop body over a Python list. *)
Fixpoint for_each {St X : Type} (body : St -> X -> result St) (xs : list X)
    (s : St) : result St :=
  match xs with
  | [] => Ok s
  | x :: xs' => s' ← body s x; for_each body xs' s'
  end.

(** ** numpy arrays: a shape, a memory order, an ownership flag, a buffer *)

Module np.

(** The memory order of a contiguous array: C (the last axis varies
    fastest) or Fortran (the first axis varies fastest). *)
Inductive memory_order : Type := C_order | F_order.

#[global] Instance memory_order_eq_dec : EqDecision memory_order.
Proof. solve_decision. Defined.

Section ndarray.
Context {A : Type}.
(** Whether numpy computes the contiguity flags with relaxed stride
    checking (axes of length 1 ignored; the default since numpy 1.12) or
    by comparing all strides. *)
Variable relaxed : bool.
(** The array dtype's 0. *)
Variable zero : A.

(** [data] is the buffer in memory order and [order] the order in which
    the strides address it (for an array of at most one element, where
    the two orders address alike, either may be recorded); [owndata] is
    numpy's OWNDATA flag; [referenced] tells that another object (a
    cache, a view, a second variable) holds a reference to the array. *)
Record ndarray : Type := mk_ndarray {
  shape : list nat;
  order : memory_order;
  owndata : bool;
  referenced : bool;
  data : list A
}.

Definition size_of (s : list nat) : nat := foldr Nat.mul 1%nat s.

Definition well_formed (a : ndarray) : Prop :=
  length (data a) = size_of (shape a).

(** [a.shape[i]] on the shape tuple. *)
Definition shape_at (a : ndarray) (i : nat) : result nat :=
  match shape a !! i with
  | Some d => Ok d
  | None => Raise IndexError
  end.

(** Strides, in elements, of a shape laid out in C and in Fortran order. *)
Fixpoint strides_C (s : list nat) : list nat :=
  match s with
  | [] => []
  | _ :: s' => size_of s' :: strides_C s'
  end.

Fixpoint strides_F (before : nat) (s : list nat) : list nat :=
  match s with
  | [] => []
  | d :: s' => before :: strides_F (before * d) s'
  end.

Definition long_axes (s : list nat) : nat :=
  length (filter (fun d => d <> 1%nat) s).

(** An array of this shape carries both contiguity flags: it has no
    element, or, under relaxed checking, at most one axis longer than 1,
    otherwise the same strides in both orders. *)
Definition both_contiguous (s : list nat) : bool :=
  bool_decide (size_of s = 0%nat) ||
  (if relaxed then bool_decide (long_axes s <= 1)%nat
   else bool_decide (strides_C s = strides_F 1 s)).

(** The order of the strides numpy gives when it lays an array out anew
    (in-place resize, [zeros_like]): Fortran when the array is Fortran
    contiguous and not C contiguous, C otherwise. *)
Definition new_order (a : ndarray) : memory_order :=
  match order a with
  | C_order => C_order
  | F_order => if both_contiguous (shape a) then C_order else F_order
  end.

(** [ndarray.resize(new_shape)]: when the number of elements changes the
    array must own its data and be referenced by nothing else, or
    [ValueError] is raised; the buffer is truncated, or padded with zeros,
    in memory order. *)
Definition resize (a : ndarray) (new_shape : list nat) : result ndarray :=
  let n := size_of new_shape in
  if bool_decide (n <> size_of (shape a)) &&
     (negb (owndata a) || referenced a)
  then Raise ValueError
  else Ok {| shape := new_shape;
             order := new_order a;
             owndata := owndata a;
             referenced := referenced a;
             data := take n (data a) ++ replicate (n - length (data a)) zero |}.

(** [np.zeros_like(a)]: a fresh array of the shape of [a], laid out like
    it. *)
Definition zeros_like (a : ndarray) : ndarray :=
  {| shape := shape a;
     order := new_order a;
     owndata := true;
     referenced := false;
     data := replicate (size_of (shape a)) zero |}.

(** An integer index along an axis of length [n]: negative indices count
    from the end, anything outside [-n, n) raises [IndexError]. *)
Definition norm_index (n : nat) (i : Z) : result nat :=
  if decide (0 <= i < Z.of_nat n)%Z then Ok (Z.to_nat i)
  else if decide (- Z.of_nat n <= i < 0)%Z then Ok (Z.to_nat (i + Z.of_nat n))
  else Raise IndexError.

(** The index along the first axis of the element at memory offset [m], in
    an array whose first axis has length [n] and whose other axes hold
    [inner] elements. *)
Definition row_of (o : memory_order) (n inner m : nat) : nat :=
  match o with
  | C_order => Nat.div m inner
  | F_order => Nat.modulo m n
  end.

(** [a[i][:] = x]: every element whose index along the first axis is [i]
    is overwritten by [x]. *)
Definition fill_row (a : ndarray) (i : Z) (x : A) : result ndarray :=
  match shape a with
  | [] => Raise IndexError
  | n :: rest =>
      k ← norm_index n i;
      Ok {| shape := shape a;
            order := order a;
            owndata := owndata a;
            referenced := referenced a;
            data := imap (fun m old =>
                            if decide (row_of (order a) n (size_of rest) m = k)
                            then x else old) (data a) |}
  end.

(** Memory offset of a multi-index in C order; [None] when the index is
    not a valid position of the shape. *)
Fixpoint ravel (s : list nat) (idx : list nat) (acc : nat) : option nat :=
  match s, idx with
  | [], [] => Some acc
  | d :: s', i :: idx' =>
      if decide (i < d)%nat then ravel s' idx' (acc * d + i) else None
  | _, _ => None
  end.

(** The same in Fortran order. *)
Fixpoint ravel_F (s : list nat) (idx : list nat) : option nat :=
  match s, idx with
  | [], [] => Some 0%nat
  | d :: s', i :: idx' =>
      if decide (i < d)%nat
      then r ← ravel_F s' idx'; Some (i + d * r)%nat
      else None
  | _, _ => None
  end.

Definition offset (o : memory_order) (s idx : list nat) : option nat :=
  match o with
  | C_order => ravel s idx 0
  | F_order => ravel_F s idx
  end.

Definition item (a : ndarray) (idx : list nat) : option A :=
  p ← offset (order a) (shape a) idx; data a !! p.
End ndarray.
Arguments ndarray A : clear implicits.
End np.

(** ** src/clustering/mask_surface.py *)

Module MaskSurface.
Import np.

(** A loaded NIfTI image: the voxel array and the spatial affine. *)
Record image (A Aff : Type) : Type :=
  mk_image { get_data : ndarray A; get_affine : Aff }.
Arguments mk_image {A Aff} _ _.
Arguments get_data {A Aff} _.
Arguments get_affine {A Aff} _.

Section mask_surface.
Context {A Aff : Type}.
Variable relaxed : bool.
(** [zero] and [one] are the array dtype's 0 and 1. *)
Variables zero one : A.
(** [from variables import lhvertices, rhvertices]: the two fixed
    vertex-index tables; the module that defines them is not part of the
    sources, so they are parameters here. *)
Variables lhvertices rhvertices : list Z.

(** Line 29, [data.resize(data.shape[0]*data.shape[2],1,1,data.shape[3])]. *)
Definition flatten_data (data : ndarray A) : result (ndarray A) :=
  d0 ← shape_at data 0;
  d2 ← shape_at data 2;
  d3 ← shape_at data 3;
  resize relaxed zero data [d0 * d2; 1; 1; d3]%nat.

(** The array computation of [MaskSurface._run_interface], from the loaded
    image to the image that is saved. *)
Definition maskSurface (img : image A Aff) (hemi : string)
  : result (image A Aff) :=
  let data := get_data img in
  let origdata := shape data in
  let affine := get_affine img in
  data ← flatten_data data;
  let mask := zeros_like relaxed zero data in
  let chosenvertices : option (list Z) := None in
  let chosenvertices := if decide (hemi = "lh") then Some lhvertices else chosenvertices in
  let chosenvertices := if decide (hemi = "rh") then Some rhvertices else chosenvertices in
  vs ← read_local "chosenvertices" chosenvertices;
  mask ← for_each (fun mask vertex => fill_row mask vertex one) vs mask;
  mask ← resize relaxed zero mask origdata;
  Ok (mk_image mask affine).

(** The file system as far as the interface touches it: image files by
    path. *)
Definition load (fs : gmap string (image A Aff)) (path : string)
  : result (image A Aff) :=
  match fs !! path with
  | Some img => Ok img
  | None => Raise (IOError path)
  end.

Record inputs : Type := mk_inputs { sxfmout : string; hemi : string }.

Definition _run_interface (self : inputs) (fs : gmap string (image A Aff))
  : result (gmap string (image A Aff)) :=
  img ← load fs (sxfmout self);
  maskImg ← maskSurface img (hemi self);
  Ok (<["surfacemask.nii" := maskImg]> fs).
End mask_surface.

(** Values of output traits. *)
Inductive trait_value : Type :=
| Undefined
| FileName (path : string).

(** [MaskSurfaceOutputSpec]: the declared output ports. *)
Definition output_spec : list string := ["surface_mask"].

(** [self._outputs().get()]: every declared output, still undefined. *)
Definition _outputs_get : gmap string trait_value :=
  list_to_map ((fun k => (k, Undefined)) <$> output_spec).

Definition _list_outputs : gmap string trait_value :=
  let outputs := _outputs_get in
  let outputs := <["mask_surface" := FileName "surfacemask.nii"]> outputs in
  outputs.

End MaskSurface.

(** ** src/lsd_lemon/lsd_resting.py *)

Module LsdResting.

(** Python values that reach node inputs. *)
Inductive value : Type :=
| VBool (b : bool)
| VInt (z : Z)
| VFloat (f : float)
| VStr (s : string).

(** [a / b] on Python floats: division by zero raises. *)
Definition py_truediv (a b : float) : result float :=
  if PrimFloat.eqb b 0 then Raise ZeroDivisionError else Ok (a / b)%float.

(** The objects [create_lsd_resting] creates and wires, by variable name. *)
Inductive node_id : Type :=
| scan_infosource | fmap_infosource | selectfiles | remove_vol
| moco | fmap_coreg | transform_ts | denoise | sink.

#[global] Instance node_id_eq_dec : EqDecision node_id.
Proof. solve_decision. Defined.

Definition node_id_index (o : node_id) : nat :=
  match o with
  | scan_infosource => 0 | fmap_infosource => 1 | selectfiles => 2
  | remove_vol => 3 | moco => 4 | fmap_coreg => 5 | transform_ts => 6
  | denoise => 7 | sink => 8
  end.

Definition node_id_of_index (k : nat) : node_id :=
  match k with
  | 0 => scan_infosource | 1 => fmap_infosource | 2 => selectfiles
  | 3 => remove_vol | 4 => moco | 5 => fmap_coreg | 6 => transform_ts
  | 7 => denoise | _ => sink
  end.

#[global] Instance node_id_countable : Countable node_id.
Proof.
  refine (inj_countable' node_id_index node_id_of_index _).
  intros []; reflexivity.
Defined.

(** [fmap_info]: fieldmap id and phase-encode direction of a scan.  The two
    locals are bound in the four branches only. *)
Definition fmap_info (scan_id : string) : result (string * string) :=
  let fmap_id : option string := None in
  let pe_dir : option string := None in
  let '(fmap_id, pe_dir) :=
    if decide (scan_id = "rest1a") then (Some "fmap1", Some "y-")
    else if decide (scan_id = "rest1b") then (Some "fmap1", Some "y")
    else if decide (scan_id = "rest2a") then (Some "fmap2", Some "y-")
    else if decide (scan_id = "rest2b") then (Some "fmap2", Some "y")
    else (fmap_id, pe_dir) in
  f ← read_local "fmap_id" fmap_id;
  p ← read_local "pe_dir" pe_dir;
  Ok (f, p).

(** Python callables wrapped by [util.Function] nodes. *)
Inductive callable : Type :=
| fn_fmap_info
| fn_strip_rois_func.

(** Which class an object of the graph is an instance of. *)
Inductive node_class : Type :=
| Node
| JoinNode (joinsource : string) (joinfield : string)
| Workflow.

(** The interface a node wraps, with its constructor arguments; the four
    sub-pipelines come from factories of [func_preproc] and are opaque. *)
Inductive interface : Type :=
| IdentityInterface (fields : list string)
| Function (input_names output_names : list string) (function : callable)
| SelectFiles (templates : gmap string string) (base_directory : value)
| DataSink (parameterization : bool) (base_directory : string)
    (substitutions : list (string * string))
| Pipeline (factory : string).

Record node : Type := mk_node {
  node_obj : node_id;
  node_cls : node_class;
  node_interface : interface;
  node_name : option string;
  inputs : gmap string value;
  iterables : option (string * list string)
}.

(** [Node(interface, name=...)].  The keyword arguments of the interface
    constructor stay with [node_interface]; [inputs] records only what is
    assigned afterwards through [n.inputs.<field> = v]. *)
Definition new_node (o : node_id) (i : interface) (name : string) : node :=
  mk_node o Node i (Some name) ∅ None.

Definition new_pipeline (o : node_id) (factory : string) : node :=
  mk_node o Workflow (Pipeline factory) None ∅ None.

(** [n.inputs.<field> = v] *)
Definition set_input (n : node) (field : string) (v : value) : node :=
  mk_node (node_obj n) (node_cls n) (node_interface n) (node_name n)
    (<[field := v]> (inputs n)) (iterables n).

(** [n.iterables = (field, values)] *)
Definition set_iterables (n : node) (it : string * list string) : node :=
  mk_node (node_obj n) (node_cls n) (node_interface n) (node_name n)
    (inputs n) (Some it).

(** One binding: (source node, source output) to (destination node,
    destination input). *)
Definition binding : Type := (node_id * string) * (node_id * string).

Record workflow : Type := mk_workflow {
  wf_name : string;
  base_dir : string;
  crashdump_dir : option string;
  wf_nodes : list node;
  wf_bindings : list binding
}.

(** Adds [n] to the graph unless an object with its identity is there. *)
Definition add_node (ns : list node) (n : node) : list node :=
  if decide (node_obj n ∈ (node_obj <$> ns)) then ns else ns ++ [n].

(** [wf.connect([(src, dst, [(out, in), ...]), ...])] *)
Definition connect (wf : workflow)
    (cs : list (node * node * list (string * string))) : workflow :=
  foldl (fun wf '(src, dst, ports) =>
    mk_workflow (wf_name wf) (base_dir wf) (crashdump_dir wf)
      (add_node (add_node (wf_nodes wf) src) dst)
      (wf_bindings wf ++
         ((fun '(o, i) => ((node_obj src, o), (node_obj dst, i))) <$> ports)))
    wf cs.

(** The rename rules given to the sink, in source order. *)
Definition sink_substitutions : list (string * string) :=
  [("fmap1_phase_fslprepared", "fieldmap");
   ("fmap2_phase_fslprepared", "fieldmap");
   ("fieldmap_fslprepared_fieldmap_unmasked_vsm", "shiftmap");
   ("plot.rest_coregistered", "outlier_plot");
   ("filter_motion_comp_norm_compcor_art_dmotion", "nuissance_matrix");
   ("rest_realigned.nii.gz_abs.rms", "rest_realigned_abs.rms");
   ("rest_realigned.nii.gz.par", "rest_realigned.par");
   ("rest_realigned.nii.gz_rel.rms", "rest_realigned_rel.rms");
   ("rest_realigned.nii.gz_abs_disp", "abs_displacement_plot");
   ("rest_realigned.nii.gz_rel_disp", "rel_displacment_plot");
   ("art.rest_coregistered_outliers", "outliers");
   ("global_intensity.rest_coregistered", "global_intensity");
   ("norm.rest_coregistered", "composite_norm");
   ("stats.rest_coregistered", "stats");
   ("rest_denoised_bandpassed_norm.nii.gz", "rest_preprocessed.nii.gz")].

Definition templates : gmap string string :=
  list_to_map
    [("func", "nifti/lsd_resting/{scan_id}.nii.gz");
     ("fmap_phase", "nifti/lsd_resting/{fmap_id}_phase.nii.gz");
     ("fmap_mag", "nifti/lsd_resting/{fmap_id}_mag.nii.gz");
     ("anat_head", "preprocessed/anat/T1.nii.gz");
     ("anat_brain", "preprocessed/anat/T1_brain.nii.gz");
     ("func_mask", "preprocessed/anat/func_mask.nii.gz")].

(** [create_lsd_resting]: builds the workflow on which [run()] is called.
    The result is that workflow, or the exception raised while building. *)
Definition create_lsd_resting
    (subject : value) (working_dir out_dir : string)
    (freesurfer_dir data_dir echo_space te_diff vol_to_remove : value)
    (scans : list string) (epi_resolution : value)
    (TR highpass lowpass : float) : result workflow :=
  let func_preproc := mk_workflow "lsd_resting" "" None [] [] in
  let func_preproc :=
    mk_workflow (wf_name func_preproc) working_dir
      (crashdump_dir func_preproc) (wf_nodes func_preproc)
      (wf_bindings func_preproc) in
  let func_preproc :=
    mk_workflow (wf_name func_preproc) (base_dir func_preproc)
      (Some (base_dir func_preproc ++ "/crash_files"))
      (wf_nodes func_preproc) (wf_bindings func_preproc) in
  let scan_infosource :=
    new_node scan_infosource (IdentityInterface ["scan_id"]) "scan_infosource" in
  let scan_infosource := set_iterables scan_infosource ("scan_id", scans) in
  let fmap_infosource :=
    new_node fmap_infosource
      (Function ["scan_id"] ["fmap_id"; "pe_dir"] fn_fmap_info)
      "fmap_infosource" in
  let selectfiles :=
    new_node selectfiles (SelectFiles templates data_dir) "selectfiles" in
  let remove_vol :=
    new_node remove_vol
      (Function ["in_file"; "t_min"] ["out_file"] fn_strip_rois_func)
      "remove_vol" in
  let remove_vol := set_input remove_vol "t_min" vol_to_remove in
  let moco := new_pipeline moco "create_moco_pipeline" in
  let fmap_coreg := new_pipeline fmap_coreg "create_fmap_coreg_pipeline" in
  let fmap_coreg := set_input fmap_coreg "inputnode.fs_subjects_dir" freesurfer_dir in
  let fmap_coreg := set_input fmap_coreg "inputnode.fs_subject_id" subject in
  let fmap_coreg := set_input fmap_coreg "inputnode.echo_space" echo_space in
  let fmap_coreg := set_input fmap_coreg "inputnode.te_diff" te_diff in
  let transform_ts := new_pipeline transform_ts "create_transform_pipeline" in
  let transform_ts := set_input transform_ts "inputnode.resolution" epi_resolution in
  let denoise := new_pipeline denoise "create_denoise_pipeline" in
  highpass_sigma ← py_truediv 1 (2 * TR * highpass)%float;
  let denoise := set_input denoise "inputnode.highpass_sigma" (VFloat highpass_sigma) in
  lowpass_sigma ← py_truediv 1 (2 * TR * lowpass)%float;
  let denoise := set_input denoise "inputnode.lowpass_sigma" (VFloat lowpass_sigma) in
  let denoise := set_input denoise "inputnode.tr" (VFloat TR) in
  let sink :=
    new_node sink (DataSink false out_dir sink_substitutions) "sink" in
  let func_preproc := connect func_preproc
    [(scan_infosource, selectfiles, [("scan_id", "scan_id")]);
     (scan_infosource, fmap_infosource, [("scan_id", "scan_id")]);
     (fmap_infosource, selectfiles, [("fmap_id", "fmap_id")]);
     (fmap_infosource, fmap_coreg, [("pe_dir", "inputnode.pe_dir")]);
     (scan_infosource, sink, [("scan_id", "container")]);
     (selectfiles, remove_vol, [("func", "in_file")]);
     (remove_vol, moco, [("out_file", "inputnode.epi")]);
     (selectfiles, fmap_coreg,
        [("fmap_phase", "inputnode.phase");
         ("fmap_mag", "inputnode.mag");
         ("anat_head", "inputnode.anat_head");
         ("anat_brain", "inputnode.anat_brain")]);
     (moco, fmap_coreg, [("outputnode.epi_mean", "inputnode.epi_mean")]);
     (remove_vol, transform_ts, [("out_file", "inputnode.orig_ts")]);
     (selectfiles, transform_ts, [("anat_head", "inputnode.anat_head")]);
     (moco, transform_ts, [("outputnode.mat_moco", "inputnode.mat_moco")]);
     (fmap_coreg, transform_ts, [("outputnode.fmap_fullwarp", "inputnode.fullwarp")]);
     (selectfiles, denoise,
        [("func_mask", "inputnode.brain_mask");
         ("anat_brain", "inputnode.anat_brain")]);
     (fmap_coreg, denoise,
        [("outputnode.epi2anat_dat", "inputnode.epi2anat_dat");
         ("outputnode.unwarped_mean_epi2fmap", "inputnode.unwarped_mean")]);
     (moco, denoise, [("outputnode.par_moco", "inputnode.moco_par")]);
     (transform_ts, denoise, [("outputnode.trans_ts", "inputnode.epi_coreg")]);
     (moco, sink,
        [("outputnode.par_moco", "realign.@par");
         ("outputnode.rms_moco", "realign.@rms");
         ("outputnode.mat_moco", "realign.MAT.@mat");
         ("outputnode.epi_mean", "realign.@mean");
         ("outputnode.rotplot", "realign.plots.@rotplot");
         ("outputnode.transplot", "realign.plots.@transplot");
         ("outputnode.dispplots", "realign.plots.@dispplots");
         ("outputnode.tsnr_file", "realign.@tsnr")]);
     (fmap_coreg, sink,
        [("outputnode.fmap", "coregister.transforms2anat.@fmap");
         ("outputnode.unwarped_mean_epi2fmap", "coregister.@unwarped_mean_epi2fmap");
         ("outputnode.epi2fmap", "coregister.@epi2fmap");
         ("outputnode.fmap_fullwarp", "coregister.transforms2anat.@fmap_fullwarp");
         ("outputnode.epi2anat", "coregister.@epi2anat");
         ("outputnode.epi2anat_mat", "coregister.transforms2anat.@epi2anat_mat");
         ("outputnode.epi2anat_dat", "coregister.transforms2anat.@epi2anat_dat");
         ("outputnode.epi2anat_mincost", "coregister.@epi2anat_mincost")]);
     (transform_ts, sink,
        [("outputnode.trans_ts_mean", "coregister.@full_transform_mean");
         ("outputnode.resamp_brain", "coregister.@resamp_brain")]);
     (denoise, sink,
        [("outputnode.wmcsf_mask", "denoise.mask.@wmcsf_masks");
         ("outputnode.combined_motion", "denoise.artefact.@combined_motion");
         ("outputnode.outlier_files", "denoise.artefact.@outlier");
         ("outputnode.intensity_files", "denoise.artefact.@intensity");
         ("outputnode.outlier_stats", "denoise.artefact.@outlierstats");
         ("outputnode.outlier_plots", "denoise.artefact.@outlierplots");
         ("outputnode.mc_regressor", "denoise.regress.@mc_regressor");
         ("outputnode.comp_regressor", "denoise.regress.@comp_regressor");
         ("outputnode.mc_F", "denoise.regress.@mc_F");
         ("outputnode.mc_pF", "denoise.regress.@mc_pF");
         ("outputnode.comp_F", "denoise.regress.@comp_F");
         ("outputnode.comp_pF", "denoise.regress.@comp_pF");
         ("outputnode.brain_mask_resamp", "denoise.mask.@brain_resamp");
         ("outputnode.brain_mask2epi", "denoise.mask.@brain_mask2epi");
         ("outputnode.normalized_file", "@normalized")])] in
  Ok func_preproc.

(** Lookup of an object of the graph. *)
Definition find_node (wf : workflow) (o : node_id) : option node :=
  List.find (fun n => bool_decide (node_obj n = o)) (wf_nodes wf).

(** The value a node input was set to, if it was. *)
Definition input_of (wf : workflow) (o : node_id) (field : string)
  : option value :=
  n ← find_node wf o; inputs n !! field.

End LsdResting.

(** ** The workflow engine the repository configures

    The engine itself (node cloning, scheduling, crash records, the sink) is
    a third-party package and not part of the sources; the definitions of
    this module follow the specification's description of it. *)

Module Engine.

(** *** Sink: rename rules and destination paths (specification 4.5) *)

(** Modelled from the spec: the sink's pattern matching is missing from the
    sources.  A match pattern is a non-empty piece of text; it matches a
    file name in which it occurs. *)
Fixpoint occurs_at_some_position (pat s : string) : bool :=
  String.prefix pat s ||
  match s with
  | EmptyString => false
  | String _ s' => occurs_at_some_position pat s'
  end.

Definition matches (pat name : string) : bool :=
  negb (String.eqb pat "") && occurs_at_some_position pat name.

(** Modelled from the spec: the sink's replacement step is missing from the
    sources.  Applying a rule puts the replacement in place of the
    occurrences of the pattern, scanning from the left; [skip] counts the
    characters of an occurrence still to be dropped. *)
Fixpoint substitute_from (pat rep : string) (skip : nat) (s : string) : string :=
  match s with
  | EmptyString => EmptyString
  | String c s' =>
      match skip with
      | S k => substitute_from pat rep k s'
      | O =>
          if String.prefix pat s
          then rep ++ substitute_from pat rep (String.length pat - 1) s'
          else String c (substitute_from pat rep 0 s')
      end
  end.

Definition substitute (pat rep name : string) : string :=
  substitute_from pat rep 0 name.

(** Modelled from the spec: the sink's [persist] is missing from the
    sources.  "renameRules is an ordered list of (matchPattern, replacement)
    applied to the output's base filename before placement; first match wins
    per file." *)
Fixpoint rename (renameRules : list (string * string)) (name : string) : string :=
  match renameRules with
  | [] => name
  | (matchPattern, replacement) :: rest =>
      if matches matchPattern name
      then substitute matchPattern replacement name
      else rename rest name
  end.

Fixpoint has_sep (s : string) : bool :=
  match s with
  | EmptyString => false
  | String c s' => bool_decide (c = "/"%char) || has_sep s'
  end.

(** The base filename of a path: what follows its last separator. *)
Fixpoint base_filename (path : string) : string :=
  match path with
  | EmptyString => EmptyString
  | String c rest =>
      if has_sep rest then base_filename rest
      else if bool_decide (c = "/"%char) then rest else path
  end.

(** Modelled from the spec: the sink's [persist] is missing from the
    sources.  Each bound output file is placed at
    "destinationRoot/containerPath/<renamed-or-original-name>". *)
Definition destination (destinationRoot containerPath : string)
    (renameRules : list (string * string)) (file : string) : string :=
  destinationRoot ++ "/" ++ containerPath ++ "/"
    ++ rename renameRules (base_filename file).

(** Modelled from the spec: [persist] "fails with
    DestinationConflictError if two distinct outputs resolve to the same
    destination path within one run (does not overwrite silently)". *)
Definition persist (boundOutputs : list string)
    (destinationRoot containerPath : string)
    (renameRules : list (string * string)) : result (list string) :=
  let placed :=
    (fun file => destination destinationRoot containerPath renameRules file)
      <$> boundOutputs in
  if bool_decide (NoDup placed) then Ok placed
  else Raise DestinationConflictError.

(** *** Graphs, iterable expansion (specification 3 and 4.2) *)

Section graph.
Context {N : Type} `{Countable N}.

(** Modelled from the spec: the engine's graph is missing from the sources.
    A graph is a set of nodes and bindings; [g_join] tells the Join Points. *)
Record graph : Type := mk_graph {
  g_nodes : list N;
  g_edges : list (N * N);
  g_join : N -> bool
}.

(** The nodes a node consumes from, and the nodes fed by a set of nodes. *)
Definition upstream (g : graph) (n : N) : list N :=
  fst <$> filter (fun e => e.2 = n) (g_edges g).

Definition fed_by (g : graph) (X : gset N) : gset N :=
  list_to_set
    (filter (fun m => g_join g m = false)
       (snd <$> filter (fun e => e.1 ∈ X) (g_edges g))).

(** Modelled from the spec: "every node reachable from this iterable
    source, transitively, until a Join Point", the region "downstream of it
    (up to but excluding a Join Point)". *)
Inductive reaches (g : graph) (src : N) : N -> Prop :=
| reaches_direct m :
    (src, m) ∈ g_edges g -> g_join g m = false -> reaches g src m
| reaches_step n m :
    reaches g src n -> (n, m) ∈ g_edges g -> g_join g m = false ->
    reaches g src m.

Fixpoint closure (fuel : nat) (g : graph) (X : gset N) : gset N :=
  match fuel with
  | O => X
  | S k => closure k g (X ∪ fed_by g X)
  end.

(** The region computed: one round per binding is enough to saturate. *)
Definition downstream (g : graph) (src : N) : gset N :=
  closure (length (g_edges g)) g (fed_by g {[src]}).

Section expansion.
Context {V : Type}.

(** Modelled from the spec: "clone identity = (original node name, value)". *)
Definition clone : Type := N * V.

(** Modelled from the spec: the engine's iterable expansion is missing from
    the sources.  Every node of the region is "logically cloned once per
    value". *)
Definition expand (g : graph) (src : N) (values : list V) : list clone :=
  n ← elements (downstream g src); (fun v => (n, v)) <$> values.

Definition clones_of (n : N) (cs : list clone) : list clone :=
  filter (fun c => c.1 = n) cs.

(** Modelled from the spec: "each clone's working directory path embeds the
    value".  A path is a sequence of segments: a plain directory, the
    directory keyed by an iteration value, the directory of a node. *)
Inductive segment : Type :=
| Dir (name : string)
| ValueDir (v : V)
| NodeDir (n : N).

Definition workdir (root : list segment) (c : clone) : list segment :=
  root ++ [ValueDir c.2; NodeDir c.1].
End expansion.

(** *** Scheduler and executor (specification 4.4) *)

Section executor.
Context {Out : Type}.

(** Modelled from the spec: a node ends as [Completed], with the outputs
    it produced, as [Failed], with its error, or as [Blocked]. *)
Inductive status : Type :=
| Completed (out : Out)
| Failed (e : exn)
| Blocked.

(** Modelled from the spec: the crash record "stores the failure context
    (inputs, stack trace equivalent, working-directory path)" in "a
    dedicated crash-record directory". *)
Record crash_record : Type := mk_crash_record {
  crash_dir : string;
  crash_node : N;
  crash_workdir : string;
  crash_inputs : list (N * Out);
  crash_error : exn
}.

(** Modelled from the spec: what a run has recorded so far, the status of
    the nodes reached and the crash records written. *)
Record run_state : Type := mk_run_state {
  st_status : gmap N status;
  st_crashes : list crash_record
}.

(** Modelled from the spec: the scheduler is missing from the sources.
    "Compute topological order ...  Ties among independent nodes broken by
    declaration order": the next node is the first remaining one, in
    declaration order, whose producers are all placed.  [None] when no such
    node exists although nodes remain. *)
Fixpoint schedule_loop (g : graph) (fuel : nat) (placed remaining : list N)
  : option (list N) :=
  match remaining with
  | [] => Some placed
  | _ :: _ =>
      match fuel with
      | O => None
      | S k =>
          match List.find (fun n => bool_decide (Forall (fun d => d ∈ placed) (upstream g n)))
                  remaining with
          | Some n =>
              schedule_loop g k (placed ++ [n])
                (filter (fun m => m ≠ n) remaining)
          | None => None
          end
      end
  end.

(** Modelled from the spec: the order of the whole graph; one round per
    node is enough. *)
Definition schedule (g : graph) : option (list N) :=
  schedule_loop g (length (g_nodes g)) [] (g_nodes g).

(** The computation of a node on its resolved inputs (run afresh or taken
    from the cache), the working directory of a node, and the configured
    crash-record directory. *)
Variable compute : N -> list (N * Out) -> result Out.
Variable workdir_of : N -> string.
Variable crashdump_dir : string.

(** Modelled from the spec: "resolve its inputs from completed upstream
    outputs"; [None] when a producer has not completed. *)
Definition resolve (g : graph) (st : run_state) (n : N) : option (list (N * Out)) :=
  mapM (fun d =>
          match st_status st !! d with
          | Some (Completed o) => Some (d, o)
          | _ => None
          end) (upstream g n).

(** Modelled from the spec: the executor is missing from the sources.  A
    node whose producers all completed is executed; its failure is recorded
    in the crash-record directory.  A node with a producer that did not
    complete is marked [Blocked] when the scheduler reaches it. *)
Definition execute_node (g : graph) (st : run_state) (n : N) : run_state :=
  match resolve g st n with
  | None => mk_run_state (<[n := Blocked]> (st_status st)) (st_crashes st)
  | Some ins =>
      match compute n ins with
      | Ok o => mk_run_state (<[n := Completed o]> (st_status st)) (st_crashes st)
      | Raise e =>
          mk_run_state (<[n := Failed e]> (st_status st))
            (st_crashes st
             ++ [mk_crash_record crashdump_dir n (workdir_of n) ins e])
      end
  end.

(** Modelled from the spec: "for each node in order", from a state in
    which no node has been reached. *)
Definition execute (g : graph) : option run_state :=
  order ← schedule g;
  Some (foldl (execute_node g) (mk_run_state ∅ []) order).

(** Modelled from the spec: [n] is a "(transitive) downstream dependent"
    of [f], it consumes, directly or through other nodes, from [f]. *)
Inductive depends_on (g : graph) (n : N) : N -> Prop :=
| depends_direct f : (f, n) ∈ g_edges g -> depends_on g n f
| depends_step f d :
    (d, n) ∈ g_edges g -> depends_on g d f -> depends_on g n f.

(** Modelled from the spec: the node was run, it did not end [Blocked]. *)
Definition executed (st : run_state) (n : N) : Prop :=
  match st_status st !! n with
  | Some (Completed _) | Some (Failed _) => True
  | _ => False
  end.
End executor.
End graph.
Arguments graph N : clear implicits.
Arguments clone N V : clear implicits.
Arguments segment N V : clear implicits.

(** *** The graph of the constructed workflow *)

Import LsdResting.

Definition is_join (wf : workflow) (o : node_id) : bool :=
  match find_node wf o with
  | Some n =>
      match node_cls n with
      | JoinNode _ _ => true
      | _ => false
      end
  | None => false
  end.

Definition graph_of (wf : workflow) : graph node_id :=
  mk_graph (node_obj <$> wf_nodes wf)
    ((fun b : binding => (b.1.1, b.2.1)) <$> wf_bindings wf)
    (is_join wf).

(** The node and field a workflow iterates over, with the values. *)
Definition iterable_source (wf : workflow)
  : option (node_id * string * list string) :=
  n ← List.find (fun n => bool_decide (is_Some (iterables n))) (wf_nodes wf);
  it ← iterables n;
  Some (node_obj n, it.1, it.2).

(** What the clone of node [o] for iteration value [v] receives on input
    [field]: the value itself when the input is bound to the iterated field
    of the iterable source (an identity interface hands its input on). *)
Definition clone_input (wf : workflow) (o : node_id) (field : string)
    (v : string) : option string :=
  '(src, f, _) ← iterable_source wf;
  if decide (((src, f), (o, field)) ∈ wf_bindings wf) then Some v else None.

(** Where the sink's clone for iteration value [v] places a file. *)
Definition sink_destination (wf : workflow) (v : string) (file : string)
  : option string :=
  n ← find_node wf sink;
  match node_interface n with
  | DataSink _ base_directory substitutions =>
      container ← clone_input wf sink "container" v;
      Some (destination base_directory container substitutions file)
  | _ => None
  end.

End Engine.

(** * Vocabulary of the statements *)

Module MaskSurfaceSpec.
Import np MaskSurface.

(** An index along an axis of length [n] is usable when it lies in
    [-n, n). *)
Definition valid_index (n : nat) (v : Z) : Prop :=
  (- Z.of_nat n <= v < Z.of_nat n)%Z.

(** The state of the mask inside the loop: a fresh [(n,1,1,T)] array in
    memory order [o] that is [one] on the rows filled so far and [zero]
    elsewhere. *)
Definition mask_inv {A : Type} (zero one : A) (o : memory_order)
    (n T : nat) (rows : list nat) (a : ndarray A) : Prop :=
  shape a = [n; 1; 1; T] /\
  order a = o /\
  owndata a = true /\
  referenced a = false /\
  length (data a) = n * T /\
  forall m, m < n * T ->
    data a !! m = Some (if decide (row_of o n T m ∈ rows) then one else zero).

(** The table a hemisphere selector stands for. *)
Definition selects (lhvertices rhvertices : list Z) (hemi : string)
    (table : list Z) : Prop :=
  (hemi = "lh" /\ table = lhvertices) \/ (hemi = "rh" /\ table = rhvertices).

(** What the two tests of the selector leave in the local
    [chosenvertices]. *)
Definition chosenvertices (lhvertices rhvertices : list Z) (hemi : string)
  : option (list Z) :=
  if decide (hemi = "rh") then Some rhvertices
  else if decide (hemi = "lh") then Some lhvertices else None.

(** The flattened vertex index of the voxels (x, ., z, .) of an
    (X, 1, Z, T) volume, over the X and Z axes in memory order. *)
Definition vertex (o : memory_order) (X Zd x z : nat) : nat :=
  match o with
  | C_order => x * Zd + z
  | F_order => x + X * z
  end.

(** The order numpy gives to an array of order [o] and shape [s] when it
    lays it out anew. *)
Definition order_after (relaxed : bool) (o : memory_order) (s : list nat)
  : memory_order :=
  match o with
  | C_order => C_order
  | F_order => if both_contiguous relaxed s then C_order else F_order
  end.

(** The order of the finished mask, for an input of order [o] and shape
    (X, 1, Z, T): the input is laid out anew by the resize to
    (X*Z, 1, 1, T), and the mask by [zeros_like]. *)
Definition mask_order (relaxed : bool) (o : memory_order) (X Zd T : nat)
  : memory_order :=
  order_after relaxed (order_after relaxed o [X; 1; Zd; T])
    [X * Zd; 1; 1; T].

(** The array [data] is after line 29, when the resize goes through, as
    far as the mask depends on it: its shape and its order. *)
Definition flattened {A : Type} (relaxed : bool) (a : ndarray A)
    (n T : nat) : ndarray A :=
  mk_ndarray [n; 1; 1; T] (new_order relaxed a) (owndata a) (referenced a)
    [].

(** The in-place resize of an array to a shape goes through: the array
    owns its data and nothing else references it, or the number of
    elements stays. *)
Definition resizable {A : Type} (a : ndarray A) (s : list nat) : Prop :=
  (owndata a = true /\ referenced a = false) \/
  size_of s = size_of (shape a).

(** A small integer volume with a trivial affine, as nibabel loads it:
    Fortran-ordered, not owning its buffer, cached by the image; and the
    same with another order and an array that owns its buffer and is
    referenced by nothing else when [free] is set. *)
Definition array_volume (o : memory_order) (free : bool) (s : list nat)
    (d : list Z) : image Z unit :=
  mk_image (mk_ndarray s o free (negb free) d) tt.

Definition volume (s : list nat) (d : list Z) : image Z unit :=
  array_volume F_order false s d.

End MaskSurfaceSpec.

Module LsdRestingSpec.
Import LsdResting.

(** Tells the float 0.125 among the values, by constructor and float
    comparison. *)
Definition is_eighth (v : value) : bool :=
  match v with
  | VFloat f => PrimFloat.eqb f 0.125
  | _ => false
  end.

(** A concrete configuration and the workflow built from it. *)
Definition example_run : result workflow :=
  create_lsd_resting (VStr "sub01") "/work" "/out" (VStr "/fs")
    (VStr "/data") (VFloat 0.5) (VFloat 0.25) (VInt 5)
    ["rest1a"; "rest1b"] (VFloat 2) 2 0.125 0.5.

Definition example_workflow : workflow :=
  match example_run with
  | Ok wf => wf
  | Raise _ => mk_workflow "" "" None [] []
  end.

End LsdRestingSpec.

Module EngineSpec.
Import LsdResting Engine.

(** A Join Point of the constructed graph. *)
Definition is_join_point (n : node) : bool :=
  match node_cls n with
  | JoinNode _ _ => true
  | _ => false
  end.

(** An order of execution: every node comes once, after the nodes it
    consumes from. *)
Inductive topo {N : Type} `{EqDecision N} (g : graph N) : list N -> Prop :=
| topo_nil : topo g []
| topo_snoc l n :
    topo g l -> n ∉ l -> Forall (fun d => d ∈ l) (upstream g n) ->
    topo g (l ++ [n]).

(** A computation of the nodes in which the removal of the first volumes
    fails and every other node completes. *)
Definition example_compute (n : node_id) (ins : list (node_id * string))
  : result string :=
  if decide (n = remove_vol) then Raise (IOError "rest.nii.gz")
  else Ok "done".

(** The working directory of a node of the example: the node's name under
    the workflow's directory. *)
Definition example_workdir (n : node_id) : string :=
  "/work/lsd_resting/" ++
  match find_node LsdRestingSpec.example_workflow n with
  | Some nd => default "" (node_name nd)
  | None => ""
  end.

End EngineSpec.

Module MaskSurfaceMore.
Import np MaskSurface.

(** The row an index addresses on an axis of length [n], negative indices
    counting from the end. *)
Definition wrap (n : nat) (v : Z) : nat := Z.to_nat (v mod Z.of_nat n).

(** Every voxel is the dtype's 0 or 1. *)
Definition binary {A : Type} (zero one : A) (a : ndarray A) : Prop :=
  Forall (fun x => x = zero \/ x = one) (data a).

(** A file system holding one surface file, and the same after a run with
    tables [lh = [1]], [rh = [0]] and selector "lh", under relaxed stride
    checking. *)
Definition example_fs : gmap string (image Z unit) :=
  {["surf.nii" := MaskSurfaceSpec.volume [2; 1; 1; 1] [7; 8]%Z]}.

Definition example_fs_after : gmap string (image Z unit) :=
  <["surfacemask.nii" :=
      mk_image (mk_ndarray [2; 1; 1; 1] C_order true false [0; 1]%Z) tt]>
    example_fs.

End MaskSurfaceMore.

Module LsdRestingMore.
Import LsdResting.

(** The objects of a graph, by identity. *)
Definition objects (wf : workflow) : list node_id := node_obj <$> wf_nodes wf.

(** A graph is in order when no object occurs twice among its nodes and
    every binding joins two of its nodes. *)
Definition graph_ok (wf : workflow) : Prop :=
  NoDup (objects wf) /\
  Forall (fun b : binding => b.1.1 ∈ objects wf /\ b.2.1 ∈ objects wf)
    (wf_bindings wf).

(** [m] consumes, through one or more bindings, from [n]. *)
Inductive connected (bs : list binding) : node_id -> node_id -> Prop :=
| connected_direct b :
    b ∈ bs -> connected bs b.1.1 b.2.1
| connected_step b m :
    b ∈ bs -> connected bs b.2.1 m -> connected bs b.1.1 m.

(** Search for a chain of at most [fuel] bindings from [n] to [m]. *)
Fixpoint chain (fuel : nat) (bs : list binding) (n m : node_id) : bool :=
  match fuel with
  | O => false
  | S k =>
      existsb (fun b : binding =>
                 bool_decide (b.1.1 = n) &&
                 (bool_decide (b.2.1 = m) || chain k bs b.2.1 m)) bs
  end.

(** The output and input ports an interface declares, where the source
    tells them: the fields of an identity interface are both, a function
    node has its input and output names, a file selector offers one output
    per template. *)
Definition declared_outputs (i : interface) : option (list string) :=
  match i with
  | IdentityInterface fields => Some fields
  | Function _ output_names _ => Some output_names
  | SelectFiles templates _ => Some (map_to_list templates).*1
  | _ => None
  end.

Definition declared_inputs (i : interface) : option (list string) :=
  match i with
  | IdentityInterface fields => Some fields
  | Function input_names _ _ => Some input_names
  | _ => None
  end.

(** A binding uses only ports its two nodes declare, as far as declared. *)
Definition ports_declared (wf : workflow) (b : binding) : bool :=
  match find_node wf b.1.1, find_node wf b.2.1 with
  | Some src, Some dst =>
      match declared_outputs (node_interface src) with
      | Some outs => bool_decide (b.1.2 ∈ outs)
      | None => true
      end &&
      match declared_inputs (node_interface dst) with
      | Some ins => bool_decide (b.2.2 ∈ ins)
      | None => true
      end
  | _, _ => false
  end.

(** A second configuration, differing from [example_run] in every
    parameter, and its workflow. *)
Definition other_run : result workflow :=
  create_lsd_resting (VStr "sub02") "/scratch" "/results" (VStr "/surf")
    (VStr "/raw") (VFloat 0.25) (VFloat 0.5) (VInt 3)
    ["rest2a"] (VFloat 3) 1 0.5 0.25.

Definition other_workflow : workflow :=
  match other_run with
  | Ok wf => wf
  | Raise _ => mk_workflow "" "" None [] []
  end.

(** An empty graph and one connection. *)
Definition empty_workflow : workflow := mk_workflow "w" "/work" None [] [].

Definition one_connection : list (node * node * list (string * string)) :=
  [(new_node scan_infosource (IdentityInterface ["scan_id"]) "scan_infosource",
    new_node sink (DataSink false "/out" []) "sink",
    [("scan_id", "container")])].

End LsdRestingMore.

(** * Properties of the surface mask *)

Module MaskSurfaceProofs.
Import np MaskSurface MaskSurfaceSpec MaskSurfaceMore.

Section mask_proofs.
Context {A Aff : Type}.
Variable relaxed : bool.
Variables zero one : A.

Lemma size_of_4 a b c d : size_of [a; b; c; d] = a * b * c * d.
Proof. unfold size_of; simpl; lia. Qed.

Lemma size_of_row T : size_of [1; 1; T] = T.
Proof. unfold size_of; simpl; lia. Qed.

Lemma norm_index_valid n v :
  valid_index n v -> exists k, norm_index n v = Ok k /\ k < n.
Proof.
  unfold valid_index, norm_index; intros Hv.
  destruct (decide (0 <= v < Z.of_nat n)%Z) as [Hp|Hp].
  - exists (Z.to_nat v); split; [reflexivity | lia].
  - destruct (decide (- Z.of_nat n <= v < 0)%Z) as [Hn|Hn]; [|lia].
    exists (Z.to_nat (v + Z.of_nat n)); split; [reflexivity | lia].
Qed.

Lemma norm_index_invalid n v :
  ~ valid_index n v -> norm_index n v = Raise IndexError.
Proof.
  unfold valid_index, norm_index; intros Hv.
  destruct (decide (0 <= v < Z.of_nat n)%Z); [lia|].
  destruct (decide (- Z.of_nat n <= v < 0)%Z); [lia|reflexivity].
Qed.

Lemma norm_index_wrap n v :
  valid_index n v -> norm_index n v = Ok (wrap n v) /\ wrap n v < n.
Proof.
  unfold valid_index, norm_index, wrap; intros Hv.
  destruct (decide (0 <= v < Z.of_nat n)%Z) as [Hp|Hp].
  - rewrite Z.mod_small by exact Hp. split; [reflexivity | lia].
  - destruct (decide (- Z.of_nat n <= v < 0)%Z) as [Hn|Hn]; [|lia].
    replace (v mod Z.of_nat n)%Z with (v + Z.of_nat n)%Z.
    + split; [reflexivity | lia].
    + apply (Z.mod_unique _ _ (-1)); lia.
Qed.

Lemma wrap_nonneg n v : (0 <= v < Z.of_nat n)%Z -> wrap n v = Z.to_nat v.
Proof. intros Hv. unfold wrap. by rewrite Z.mod_small. Qed.

Lemma new_order_after (a : ndarray A) :
  new_order relaxed a = order_after relaxed (order a) (shape a).
Proof. reflexivity. Qed.

(** The fresh array of zeros is the mask before the loop. *)
Lemma zeros_like_inv (d : ndarray A) n T :
  shape d = [n; 1; 1; T] ->
  mask_inv zero one (new_order relaxed d) n T [] (zeros_like relaxed zero d).
Proof.
  intros Hd.
  unfold mask_inv, zeros_like; cbn [shape order owndata referenced data].
  rewrite Hd, size_of_4. replace (n * 1 * 1 * T) with (n * T) by lia.
  split; [reflexivity|]. split; [reflexivity|]. split; [reflexivity|].
  split; [reflexivity|].
  split; [apply length_replicate|].
  intros m Hm. rewrite lookup_replicate_2 by exact Hm.
  destruct (decide (row_of (new_order relaxed d) n T m ∈ [])) as [Hin|_];
    [|reflexivity].
  by apply elem_of_nil in Hin.
Qed.

Lemma fill_row_inv o n T rows (a : ndarray A) v k :
  mask_inv zero one o n T rows a -> norm_index n v = Ok k -> k < n ->
  exists a', fill_row a v one = Ok a' /\ mask_inv zero one o n T (k :: rows) a'.
Proof.
  intros (Hs & Ho & Hown & Href & Hl & Hd) Hk Hkn.
  unfold fill_row. rewrite Hs, Hk, size_of_row, Ho. cbn [mbind result_bind].
  eexists; split; [reflexivity|].
  unfold mask_inv; cbn [shape order owndata referenced data].
  split; [reflexivity|]. split; [reflexivity|]. split; [exact Hown|].
  split; [exact Href|].
  split; [by rewrite length_imap|].
  intros m Hm. rewrite list_lookup_imap, (Hd m Hm). cbn [fmap option_fmap option_map].
  f_equal.
  destruct (decide (row_of o n T m = k)) as [Heq|Hne].
  - rewrite decide_True; [reflexivity|]. rewrite Heq. by left.
  - destruct (decide (row_of o n T m ∈ rows)) as [Hin|Hin].
    + rewrite decide_True; [reflexivity | by right].
    + rewrite decide_False; [reflexivity|].
      intros [Heq|Hin']%elem_of_cons; [by apply Hne | by apply Hin].
Qed.

Lemma fill_row_invalid o n T rows (a : ndarray A) v :
  mask_inv zero one o n T rows a -> ~ valid_index n v ->
  fill_row a v one = Raise IndexError.
Proof.
  intros (Hs & _) Hv. unfold fill_row.
  rewrite Hs, (norm_index_invalid _ _ Hv). reflexivity.
Qed.

(** The loop over usable vertices fills exactly the rows they address. *)
Lemma loop_valid o n T vs : forall rows (a : ndarray A),
  mask_inv zero one o n T rows a ->
  Forall (valid_index n) vs ->
  exists a',
    for_each (fun mask vertex => fill_row mask vertex one) vs a = Ok a' /\
    mask_inv zero one o n T (reverse (wrap n <$> vs) ++ rows) a'.
Proof.
  induction vs as [|v vs IH]; intros rows a Hinv Hvs.
  - exists a; split; [reflexivity | exact Hinv].
  - apply Forall_cons in Hvs as [Hv Hvs].
    destruct (norm_index_wrap n v Hv) as [Hk Hkn].
    destruct (fill_row_inv o n T rows a v (wrap n v) Hinv Hk Hkn)
      as (a1 & Hf & Hinv1).
    destruct (IH _ _ Hinv1 Hvs) as (a' & Hloop & Hinv').
    exists a'. split.
    + cbn [for_each]. rewrite Hf. cbn [mbind result_bind]. exact Hloop.
    + rewrite fmap_cons, reverse_cons, <- app_assoc. exact Hinv'.
Qed.

(** The loop succeeds exactly when every vertex is a usable index. *)
Lemma loop_succeeds_iff o n T vs : forall rows (a : ndarray A),
  mask_inv zero one o n T rows a ->
  (succeeds (for_each (fun mask vertex => fill_row mask vertex one) vs a)
   <-> Forall (valid_index n) vs) /\
  (~ Forall (valid_index n) vs ->
   for_each (fun mask vertex => fill_row mask vertex one) vs a
   = Raise IndexError).
Proof.
  induction vs as [|v vs IH]; intros rows a Hinv.
  - split; [|intros Hn; exfalso; apply Hn; constructor].
    split; [constructor | intros _; by exists a].
  - cbn [for_each].
    destruct (decide (valid_index n v)) as [Hv|Hv].
    + destruct (norm_index_valid _ _ Hv) as (k & Hk & Hkn).
      destruct (fill_row_inv o n T rows a v k Hinv Hk Hkn) as (a1 & Hf & Hinv1).
      rewrite Hf; cbn [mbind result_bind].
      destruct (IH _ _ Hinv1) as [Hiff Hfail]. split.
      * rewrite Hiff. split; [by constructor | by inversion 1].
      * intros Hn. apply Hfail. intros Hall. apply Hn. by constructor.
    + rewrite (fill_row_invalid _ _ _ _ _ _ Hinv Hv); cbn [mbind result_bind].
      split.
      * split; [intros [x Hx]; discriminate | by inversion 1].
      * reflexivity.
Qed.

(** ** In-place resize *)

Lemma resize_ok (a : ndarray A) s :
  resizable a s ->
  resize relaxed zero a s
  = Ok (mk_ndarray s (new_order relaxed a) (owndata a) (referenced a)
          (take (size_of s) (data a)
           ++ replicate (size_of s - length (data a)) zero)).
Proof.
  unfold resizable, resize. intros [[Ho Hr]|Hs].
  - rewrite Ho, Hr. by rewrite andb_false_r.
  - rewrite (bool_decide_eq_false_2 _ (fun Hn => Hn Hs)). reflexivity.
Qed.

Lemma resize_raises (a : ndarray A) s :
  ~ resizable a s -> resize relaxed zero a s = Raise ValueError.
Proof.
  unfold resizable, resize. intros Hn.
  rewrite bool_decide_eq_true_2 by (intros Hs; apply Hn; by right).
  destruct (owndata a), (referenced a); try reflexivity.
  exfalso. apply Hn. by left.
Qed.

Lemma resizable_dec (a : ndarray A) s : resizable a s \/ ~ resizable a s.
Proof.
  unfold resizable.
  destruct (owndata a), (referenced a),
    (decide (size_of s = size_of (shape a))); intuition congruence.
Qed.

(** A resize that keeps the number of elements keeps the buffer. *)
Lemma resize_same_size (a : ndarray A) s :
  well_formed a -> size_of s = size_of (shape a) ->
  resize relaxed zero a s
  = Ok (mk_ndarray s (new_order relaxed a) (owndata a) (referenced a)
          (data a)).
Proof.
  intros Hwf Hs. rewrite resize_ok by (by right). unfold well_formed in Hwf.
  rewrite Hs, <- Hwf, firstn_all, Nat.sub_diag. cbn [replicate].
  by rewrite app_nil_r.
Qed.

Lemma mask_inv_well_formed o n T rows (a : ndarray A) :
  mask_inv zero one o n T rows a -> well_formed a.
Proof.
  intros (Hs & _ & _ & _ & Hl & _). unfold well_formed.
  rewrite Hs, Hl, size_of_4. lia.
Qed.

(** ** Memory layout *)

Lemma long_axes_4 a b c d :
  long_axes [a; b; c; d]
  = (if decide (a = 1) then 0 else 1) + (if decide (b = 1) then 0 else 1)
    + (if decide (c = 1) then 0 else 1) + (if decide (d = 1) then 0 else 1).
Proof.
  unfold long_axes.
  rewrite !filter_cons, filter_nil.
  repeat case_decide; try congruence; reflexivity.
Qed.

(** When a non-empty four-axis array carries both contiguity flags, at
    most one axis is longer than 1. *)
Lemma both_contiguous_4 a b c d :
  both_contiguous relaxed [a; b; c; d] = true -> 0 < a * b * c * d ->
  (relaxed = true /\
   (if decide (a = 1) then 0 else 1) + (if decide (b = 1) then 0 else 1)
   + (if decide (c = 1) then 0 else 1) + (if decide (d = 1) then 0 else 1)
   <= 1) \/
  (relaxed = false /\ a = 1 /\ b = 1 /\ c = 1 /\ d = 1).
Proof.
  unfold both_contiguous. intros Hb Hpos.
  rewrite bool_decide_eq_false_2 in Hb by (rewrite size_of_4; lia).
  cbn [orb] in Hb. destruct relaxed.
  - left. split; [reflexivity|].
    apply bool_decide_eq_true_1 in Hb. by rewrite long_axes_4 in Hb.
  - right. split; [reflexivity|].
    apply bool_decide_eq_true_1 in Hb.
    cbn [strides_C strides_F] in Hb. unfold size_of in Hb. cbn [foldr] in Hb.
    injection Hb as H1 H2 H3 H4.
    assert (a * b * c = 1) as H by lia.
    assert (a * b = 1 /\ c = 1) as [Hab ->] by (apply Nat.eq_mul_1; lia).
    assert (a = 1 /\ b = 1) as [-> ->] by (apply Nat.eq_mul_1; lia).
    lia.
Qed.

Lemma both_contiguous_row n :
  relaxed = true -> both_contiguous relaxed [n; 1; 1; 1] = true.
Proof.
  intros ->. unfold both_contiguous. apply orb_true_iff. right.
  apply bool_decide_eq_true_2. rewrite long_axes_4.
  repeat case_decide; try congruence; lia.
Qed.

(** Laying out anew an array that has just been laid out changes
    nothing. *)
Lemma order_after_idem o s :
  order_after relaxed (order_after relaxed o s) s = order_after relaxed o s.
Proof.
  destruct o; cbn [order_after]; [reflexivity|].
  destruct (both_contiguous relaxed s) eqn:Hb; cbn [order_after];
    [reflexivity | by rewrite Hb].
Qed.

Lemma mul_pos_4 a b c : 0 < a -> 0 < b -> 0 < c -> 0 < a * 1 * b * c.
Proof. intros. repeat apply Nat.mul_pos_pos; lia. Qed.

Lemma mul_pos_row a b c : 0 < a -> 0 < b -> 0 < c -> 0 < a * b * 1 * 1 * c.
Proof. intros. repeat apply Nat.mul_pos_pos; lia. Qed.

Lemma vertex_mask_order o X Zd T x z :
  x < X -> z < Zd -> 0 < T -> 2 <= T \/ relaxed = false ->
  vertex (mask_order relaxed o X Zd T) X Zd x z = vertex o X Zd x z.
Proof.
  intros Hx Hz HT Hcase. unfold mask_order.
  destruct o; [reflexivity|]. cbn [order_after].
  assert (Hone : X = 1 /\ Zd = 1 -> forall l, vertex l X Zd x z = x + X * z).
  { intros [-> ->] l. destruct l; cbn [vertex]; lia. }
  destruct (both_contiguous relaxed [X; 1; Zd; T]) eqn:Hb1.
  - apply Hone. apply both_contiguous_4 in Hb1; [|apply mul_pos_4; lia].
    destruct Hb1 as [[Hr Hl]|(_ & -> & _ & -> & _)]; [|done].
    destruct Hcase as [HT2|Hf]; [|congruence].
    repeat case_decide; try lia; done.
  - cbn [order_after].
    destruct (both_contiguous relaxed [X * Zd; 1; 1; T]) eqn:Hb2;
      [|reflexivity].
    apply Hone. apply both_contiguous_4 in Hb2; [|apply mul_pos_row; lia].
    destruct Hb2 as [[Hr Hl]|(_ & Hn & _)].
    + destruct Hcase as [HT2|Hf]; [|congruence].
      assert (X * Zd = 1) as Hn by (repeat case_decide; try lia; done).
      apply Nat.eq_mul_1 in Hn. exact Hn.
    + apply Nat.eq_mul_1 in Hn. exact Hn.
Qed.

Lemma mask_order_single_frame o X Zd :
  relaxed = true -> mask_order relaxed o X Zd 1 = C_order.
Proof.
  intros Hr. unfold mask_order.
  destruct (order_after relaxed o [X; 1; Zd; 1]); cbn [order_after];
    [reflexivity|].
  by rewrite both_contiguous_row.
Qed.

Lemma offset_volume l X Zd T x z t :
  x < X -> z < Zd -> t < T ->
  offset l [X; 1; Zd; T] [x; 0; z; t]
  = Some (match l with
          | C_order => (x * Zd + z) * T + t
          | F_order => x + X * z + X * Zd * t
          end).
Proof.
  intros Hx Hz Ht. destruct l; cbn [offset ravel ravel_F].
  - rewrite !decide_True by lia. f_equal. lia.
  - rewrite !decide_True by lia. cbn [mbind option_bind]. f_equal. lia.
Qed.

Lemma vertex_lt l X Zd x z : x < X -> z < Zd -> vertex l X Zd x z < X * Zd.
Proof. intros Hx Hz. destruct l; cbn [vertex]; nia. Qed.

(** The memory offset of the position (x, 0, z, t) of an (X, 1, Z, T)
    array, and the row of the (X*Z, 1, 1, T) array that shares it. *)
Lemma offset_position l X Zd T x z t :
  x < X -> z < Zd -> t < T ->
  exists p,
    offset l [X; 1; Zd; T] [x; 0; z; t] = Some p /\
    p < X * Zd * T /\
    row_of l (X * Zd) T p = vertex l X Zd x z.
Proof.
  intros Hx Hz Ht. destruct l; cbn [offset ravel ravel_F].
  - rewrite !decide_True by lia.
    exists ((x * Zd + z) * T + t). split; [f_equal; lia|].
    assert (x * Zd + z + 1 <= X * Zd) by nia.
    assert ((x * Zd + z + 1) * T <= X * Zd * T)
      by (apply Nat.mul_le_mono_r; lia).
    split; [lia|].
    cbn [row_of vertex]. symmetry.
    apply (Nat.div_unique _ _ _ t); [lia | lia].
  - rewrite !decide_True by lia. cbn [mbind option_bind].
    exists (x + X * z + X * Zd * t). split; [f_equal; lia|].
    assert (x + X * z + 1 <= X * Zd) by nia.
    assert (X * Zd * (t + 1) <= X * Zd * T)
      by (apply Nat.mul_le_mono_l; lia).
    split; [lia|].
    cbn [row_of vertex]. symmetry.
    apply (Nat.mod_unique _ _ t); [lia | lia].
Qed.

Lemma offset_row l n T v t :
  v < n -> t < T ->
  offset l [n; 1; 1; T] [v; 0; 0; t]
  = Some (match l with C_order => v * T + t | F_order => v + n * t end).
Proof.
  intros Hv Ht. destruct l; cbn [offset ravel ravel_F].
  - rewrite !decide_True by lia. f_equal. lia.
  - rewrite !decide_True by lia. cbn [mbind option_bind]. f_equal. lia.
Qed.

(** ** The run, step by step *)

Variables lhvertices rhvertices : list Z.

Abbreviation run := (maskSurface relaxed zero one lhvertices rhvertices).
Abbreviation body := (fun mask vertex => fill_row mask vertex one).

Lemma maskSurface_steps (img : image A Aff) hemi d0 d2 d3 :
  shape (get_data img) !! 0 = Some d0 ->
  shape (get_data img) !! 2 = Some d2 ->
  shape (get_data img) !! 3 = Some d3 ->
  run img hemi =
    (data ← resize relaxed zero (get_data img) [d0 * d2; 1; 1; d3];
     vs ← read_local "chosenvertices"
            (chosenvertices lhvertices rhvertices hemi);
     mask ← for_each body vs (zeros_like relaxed zero data);
     mask ← resize relaxed zero mask (shape (get_data img));
     Ok (mk_image mask (get_affine img))).
Proof.
  intros H0 H2 H3. unfold maskSurface, flatten_data, shape_at, chosenvertices.
  rewrite H0, H2, H3. cbn [mbind result_bind].
  destruct (resize relaxed zero (get_data img) [d0 * d2; 1; 1; d3]);
    [|reflexivity].
  destruct (decide (hemi = "rh")), (decide (hemi = "lh")); reflexivity.
Qed.

(** When the resize of line 29 cannot be done in place the run stops
    there. *)
Lemma maskSurface_not_resizable (img : image A Aff) hemi d0 d2 d3 :
  shape (get_data img) !! 0 = Some d0 ->
  shape (get_data img) !! 2 = Some d2 ->
  shape (get_data img) !! 3 = Some d3 ->
  ~ resizable (get_data img) [d0 * d2; 1; 1; d3] ->
  run img hemi = Raise ValueError.
Proof.
  intros H0 H2 H3 Hn. rewrite (maskSurface_steps img hemi d0 d2 d3 H0 H2 H3).
  by rewrite (resize_raises _ _ Hn).
Qed.

Lemma maskSurface_resizable (img : image A Aff) hemi d0 d2 d3 :
  shape (get_data img) !! 0 = Some d0 ->
  shape (get_data img) !! 2 = Some d2 ->
  shape (get_data img) !! 3 = Some d3 ->
  resizable (get_data img) [d0 * d2; 1; 1; d3] ->
  run img hemi =
    (vs ← read_local "chosenvertices"
            (chosenvertices lhvertices rhvertices hemi);
     mask ← for_each body vs
              (zeros_like relaxed zero
                 (flattened relaxed (get_data img) (d0 * d2) d3));
     mask ← resize relaxed zero mask (shape (get_data img));
     Ok (mk_image mask (get_affine img))).
Proof.
  intros H0 H2 H3 Hr. rewrite (maskSurface_steps img hemi d0 d2 d3 H0 H2 H3).
  by rewrite (resize_ok _ _ Hr).
Qed.

Lemma flattened_inv (a : ndarray A) n T :
  mask_inv zero one (order_after relaxed (new_order relaxed a) [n; 1; 1; T])
    n T [] (zeros_like relaxed zero (flattened relaxed a n T)).
Proof. apply (zeros_like_inv (flattened relaxed a n T) n T eq_refl). Qed.

(** The finished mask owns its buffer and is referenced by its variable
    alone: its resize goes through. *)
Lemma mask_resize o n T rows (m : ndarray A) s :
  mask_inv zero one o n T rows m ->
  resize relaxed zero m s
  = Ok (mk_ndarray s (order_after relaxed o [n; 1; 1; T]) true false
          (take (size_of s) (data m)
           ++ replicate (size_of s - length (data m)) zero)).
Proof.
  intros (Hs & Ho & Hown & Href & _).
  rewrite resize_ok by (left; by split).
  by rewrite new_order_after, Hs, Ho, Hown, Href.
Qed.

Lemma selects_table hemi table :
  selects lhvertices rhvertices hemi table ->
  chosenvertices lhvertices rhvertices hemi = Some table.
Proof.
  unfold chosenvertices. intros [[-> ->]|[-> ->]].
  - rewrite decide_False by discriminate. by rewrite decide_True.
  - by rewrite decide_True.
Qed.

Lemma chosenvertices_selects hemi table :
  chosenvertices lhvertices rhvertices hemi = Some table ->
  selects lhvertices rhvertices hemi table.
Proof.
  unfold chosenvertices, selects.
  destruct (decide (hemi = "rh")); [|destruct (decide (hemi = "lh"))];
    intros Heq; [| |discriminate]; injection Heq as <-; auto.
Qed.

Lemma chosenvertices_none hemi :
  hemi <> "lh" -> hemi <> "rh" ->
  chosenvertices lhvertices rhvertices hemi = None.
Proof. intros Hl Hr. unfold chosenvertices. by rewrite !decide_False. Qed.

(** The run from the loop on, for a table of usable indices. *)
Lemma loop_and_resize o n T (m0 : ndarray A) table s (aff : Aff) :
  mask_inv zero one o n T [] m0 ->
  Forall (valid_index n) table ->
  exists m,
    mask_inv zero one o n T (reverse (wrap n <$> table) ++ []) m /\
    (mask ← for_each body table m0;
     mask ← resize relaxed zero mask s;
     Ok (mk_image mask aff))
    = Ok (mk_image
            (mk_ndarray s (order_after relaxed o [n; 1; 1; T]) true false
               (take (size_of s) (data m)
                ++ replicate (size_of s - length (data m)) zero)) aff).
Proof.
  intros Hz Htab.
  destruct (loop_valid o n T table [] m0 Hz Htab) as (m & Hloop & Hinv).
  exists m. split; [exact Hinv|].
  rewrite Hloop. cbn [mbind result_bind].
  by rewrite (mask_resize _ _ _ _ _ s Hinv).
Qed.

Lemma loop_and_resize_fails o n T (m0 : ndarray A) table s (aff : Aff) :
  mask_inv zero one o n T [] m0 ->
  ~ Forall (valid_index n) table ->
  (mask ← for_each body table m0;
   mask ← resize relaxed zero mask s;
   Ok (mk_image mask aff))
  = Raise IndexError.
Proof.
  intros Hz Hbad.
  by rewrite (proj2 (loop_succeeds_iff o n T table [] m0 Hz) Hbad).
Qed.

Lemma shape_lookups X Y Zd T (a : ndarray A) :
  shape a = [X; Y; Zd; T] ->
  shape a !! 0 = Some X /\ shape a !! 2 = Some Zd /\ shape a !! 3 = Some T.
Proof. intros ->. done. Qed.

Lemma elem_of_wrap n (table : list Z) k :
  Forall (fun v => (0 <= v < Z.of_nat n)%Z) table ->
  k ∈ wrap n <$> table <-> Z.of_nat k ∈ table.
Proof.
  intros Htab. rewrite Forall_forall in Htab.
  rewrite list_elem_of_fmap. split.
  - intros (v & -> & Hv). rewrite wrap_nonneg by (by apply Htab).
    rewrite Z2Nat.id; [exact Hv|]. by apply Htab.
  - intros Hk. exists (Z.of_nat k). split; [|exact Hk].
    rewrite wrap_nonneg by (by apply Htab). by rewrite Nat2Z.id.
Qed.

(** The mask of a volume of shape (X, 1, Z, T), for a table of usable
    indices: the positions marked are those whose index over the X and Z
    axes, in the order of the mask, is addressed by the table. *)
Lemma maskSurface_positions X Zd T (img : image A Aff) hemi table :
  shape (get_data img) = [X; 1; Zd; T] ->
  selects lhvertices rhvertices hemi table ->
  Forall (valid_index (X * Zd)) table ->
  exists out,
    run img hemi = Ok out /\
    shape (get_data out) = [X; 1; Zd; T] /\
    well_formed (get_data out) /\
    get_affine out = get_affine img /\
    forall x z t, x < X -> z < Zd -> t < T ->
      item (get_data out) [x; 0; z; t]
      = Some (if decide
                   (vertex (mask_order relaxed (order (get_data img)) X Zd T)
                      X Zd x z ∈ wrap (X * Zd) <$> table)
              then one else zero).
Proof.
  intros Hs Hsel Htab.
  destruct (shape_lookups _ _ _ _ _ Hs) as (H0 & H2 & H3).
  assert (Hsize : size_of [X; 1; Zd; T] = X * Zd * T)
    by (rewrite size_of_4; lia).
  rewrite (maskSurface_resizable img hemi X Zd T H0 H2 H3)
    by (right; rewrite Hs, Hsize, size_of_4; lia).
  rewrite (selects_table _ _ Hsel). cbn [read_local mbind result_bind].
  destruct (loop_and_resize _ _ _ _ table (shape (get_data img))
              (get_affine img) (flattened_inv (get_data img) (X * Zd) T) Htab)
    as (m & Hinv & ->).
  rewrite new_order_after, Hs, order_after_idem in *.
  fold (mask_order relaxed (order (get_data img)) X Zd T) in *.
  set (l := mask_order relaxed (order (get_data img)) X Zd T) in *.
  destruct Hinv as (_ & _ & _ & _ & Hl & Hd).
  assert (Hdata : (take (size_of [X; 1; Zd; T]) (data m)
                   ++ replicate (size_of [X; 1; Zd; T] - length (data m))
                        zero)%list
                  = data m).
  { rewrite Hsize, <- Hl, firstn_all, Nat.sub_diag. apply app_nil_r. }
  rewrite Hdata.
  eexists. split; [reflexivity|]. cbn [get_data get_affine shape].
  split; [reflexivity|]. split; [|split; [reflexivity|]].
  - unfold well_formed. cbn [shape data]. by rewrite Hsize, Hl.
  - intros x z t Hx Hz Ht. unfold item. cbn [shape order data].
    destruct (offset_position l X Zd T x z t Hx Hz Ht) as (p & -> & Hp & Hrow).
    cbn [mbind option_bind]. rewrite (Hd p Hp), Hrow. f_equal.
    apply decide_ext. by rewrite app_nil_r, elem_of_reverse.
Qed.

(** ** The claims *)

(** C1 (amended): for a volume of shape (X, 1, Z, T) and a selector in
    {"lh", "rh"} whose table holds only indices v with 0 <= v < X*Z,
    maskSurface returns a volume of the input's shape, carrying the
    input's affine, that is 1 at every position whose flattened vertex
    index is listed in the table and 0 at every other position.  The
    flattened vertex index of (x, 0, z, t) runs over the X and Z axes in
    the memory order of the input, x + X*z for a Fortran-ordered array and
    x*Z + z for a C-ordered one, when T >= 2 or numpy compares all strides;
    with a single frame under relaxed stride checking it is x*Z + z. *)
Theorem maskSurface_mask X Zd T (img : image A Aff) hemi table :
  shape (get_data img) = [X; 1; Zd; T] ->
  selects lhvertices rhvertices hemi table ->
  Forall (fun v => (0 <= v < Z.of_nat (X * Zd))%Z) table ->
  exists out,
    run img hemi = Ok out /\
    shape (get_data out) = [X; 1; Zd; T] /\
    well_formed (get_data out) /\
    get_affine out = get_affine img /\
    (2 <= T \/ relaxed = false ->
     forall x z t, x < X -> z < Zd -> t < T ->
       item (get_data out) [x; 0; z; t]
       = Some (if decide
                    (Z.of_nat (vertex (order (get_data img)) X Zd x z)
                     ∈ table)
               then one else zero)) /\
    (relaxed = true -> T = 1 ->
     forall x z, x < X -> z < Zd ->
       item (get_data out) [x; 0; z; 0]
       = Some (if decide (Z.of_nat (x * Zd + z) ∈ table)
               then one else zero)).
Proof.
  intros Hs Hsel Htab.
  assert (Hvalid : Forall (valid_index (X * Zd)) table).
  { eapply Forall_impl; [exact Htab|]. unfold valid_index. simpl. lia. }
  destruct (maskSurface_positions X Zd T img hemi table Hs Hsel Hvalid)
    as (out & Hrun & Hshape & Hwf & Haff & Hitem).
  exists out. split; [exact Hrun|]. split; [exact Hshape|].
  split; [exact Hwf|]. split; [exact Haff|]. split.
  - intros Hcase x z t Hx Hz Ht. rewrite (Hitem x z t Hx Hz Ht). f_equal.
    rewrite vertex_mask_order by (try assumption; lia).
    apply decide_ext, elem_of_wrap, Htab.
  - intros Hr -> x z Hx Hz. rewrite (Hitem x z 0 Hx Hz) by lia. f_equal.
    rewrite (mask_order_single_frame _ _ _ Hr). cbn [vertex].
    apply decide_ext, elem_of_wrap, Htab.
Qed.

Lemma succeeds_ok {B} (b : B) : succeeds (Ok b).
Proof. by exists b. Qed.

Lemma succeeds_raise {B} (e : exn) : ~ succeeds (Raise e : result B).
Proof. intros [b Hb]. discriminate Hb. Qed.

(** C2 (amended): for a volume of shape (X, Y, Z, T), when the resize
    to (X*Z, 1, 1, T) cannot be done in place (the size changes and the
    array does not own its data or is referenced elsewhere) maskSurface
    raises ValueError whatever the selector; otherwise it raises Python's
    UnboundLocalError on [chosenvertices] for every selector other than
    "lh" and "rh", and IndexError when the selected table has an entry
    outside [-X*Z, X*Z).  It succeeds exactly when the resize can be done,
    the selector is "lh" or "rh" and every entry v of the selected table
    satisfies -X*Z <= v < X*Z.  With Y = 1 the resize can always be
    done. *)
Theorem maskSurface_selector X Y Zd T (img : image A Aff) hemi :
  shape (get_data img) = [X; Y; Zd; T] ->
  (~ resizable (get_data img) [X * Zd; 1; 1; T] ->
   run img hemi = Raise ValueError) /\
  (resizable (get_data img) [X * Zd; 1; 1; T] ->
   hemi <> "lh" -> hemi <> "rh" ->
   run img hemi = Raise (UnboundLocalError "chosenvertices")) /\
  (resizable (get_data img) [X * Zd; 1; 1; T] ->
   forall table, selects lhvertices rhvertices hemi table ->
     ~ Forall (valid_index (X * Zd)) table ->
     run img hemi = Raise IndexError) /\
  (succeeds (run img hemi) <->
   resizable (get_data img) [X * Zd; 1; 1; T] /\
   exists table, selects lhvertices rhvertices hemi table /\
                 Forall (valid_index (X * Zd)) table) /\
  (Y = 1 -> resizable (get_data img) [X * Zd; 1; 1; T]).
Proof.
  intros Hs. destruct (shape_lookups _ _ _ _ _ Hs) as (H0 & H2 & H3).
  pose proof (maskSurface_not_resizable img hemi X Zd T H0 H2 H3) as Hno.
  pose proof (maskSurface_resizable img hemi X Zd T H0 H2 H3) as Hyes.
  pose proof (flattened_inv (get_data img) (X * Zd) T) as Hz.
  split; [exact Hno|]. split; [|split; [|split]].
  - intros Hr Hl Hrh. rewrite (Hyes Hr), (chosenvertices_none _ Hl Hrh).
    reflexivity.
  - intros Hr table Hsel Hbad. rewrite (Hyes Hr), (selects_table _ _ Hsel).
    cbn [read_local mbind result_bind].
    apply (loop_and_resize_fails _ _ _ _ _ _ _ Hz Hbad).
  - destruct (resizable_dec (get_data img) [X * Zd; 1; 1; T]) as [Hr|Hn].
    + rewrite (Hyes Hr).
      destruct (chosenvertices lhvertices rhvertices hemi) as [table|]
        eqn:Hch; cbn [read_local mbind result_bind].
      * apply chosenvertices_selects in Hch as Hsel.
        destruct (decide (Forall (valid_index (X * Zd)) table)) as [Hall|Hbad].
        -- destruct (loop_and_resize _ _ _ _ table (shape (get_data img))
                       (get_affine img) Hz Hall) as (m & _ & ->).
           split; [|intros _; apply succeeds_ok].
           intros _. split; [exact Hr|]. by exists table.
        -- rewrite (loop_and_resize_fails _ _ _ _ _ _ _ Hz Hbad).
           split; [intros H; by apply succeeds_raise in H|].
           intros (_ & table' & Hsel' & Hall). exfalso. apply Hbad.
           apply selects_table in Hsel'. rewrite Hch in Hsel'.
           by injection Hsel' as ->.
      * split; [intros H; by apply succeeds_raise in H|].
        intros (_ & table & Hsel & _). apply selects_table in Hsel.
        congruence.
    + rewrite (Hno Hn). split; [intros H; by apply succeeds_raise in H|].
      intros [Hr _]. by apply Hn in Hr.
  - intros ->. right. rewrite Hs, !size_of_4. lia.
Qed.

(** C3 (amended): in maskSurface, when Y = 1 the well-formed input of
    shape (X, 1, Z, T) is reinterpreted, element-preserving, as an array of
    shape (X*Z, 1, 1, T) flattened over the X and Z axes in the memory
    order of the array: its row x + X*z holds the voxels of (x, z) for a
    Fortran-ordered array, its row x*Z + z for a C-ordered one; the mask is
    built on an array of zeros laid out like it and then reshaped back,
    element-preserving, to (X, 1, Z, T).  For any Y, when the resize cannot
    be done in place it raises ValueError, and maskSurface with it. *)
Theorem resize_element_preserving X Y Zd T (img : image A Aff) hemi :
  shape (get_data img) = [X; Y; Zd; T] ->
  (~ resizable (get_data img) [X * Zd; 1; 1; T] ->
   flatten_data relaxed zero (get_data img) = Raise ValueError /\
   run img hemi = Raise ValueError) /\
  (Y = 1 -> well_formed (get_data img) ->
   exists d,
     flatten_data relaxed zero (get_data img) = Ok d /\
     shape d = [X * Zd; 1; 1; T] /\
     data d = data (get_data img) /\
     (forall x z t, x < X -> z < Zd -> t < T ->
        item d [vertex (order (get_data img)) X Zd x z; 0; 0; t]
        = item (get_data img) [x; 0; z; t]) /\
     run img hemi =
       (vs ← read_local "chosenvertices"
               (chosenvertices lhvertices rhvertices hemi);
        mask ← for_each body vs (zeros_like relaxed zero d);
        mask ← resize relaxed zero mask [X; 1; Zd; T];
        Ok (mk_image mask (get_affine img))) /\
     (forall mask, shape mask = [X * Zd; 1; 1; T] -> well_formed mask ->
        exists out,
          resize relaxed zero mask [X; 1; Zd; T] = Ok out /\
          shape out = [X; 1; Zd; T] /\
          data out = data mask /\
          forall x z t, x < X -> z < Zd -> t < T ->
            item out [x; 0; z; t]
            = item mask [vertex (order out) X Zd x z; 0; 0; t])).
Proof.
  intros Hs. destruct (shape_lookups _ _ _ _ _ Hs) as (H0 & H2 & H3).
  assert (Hflat : flatten_data relaxed zero (get_data img)
                  = resize relaxed zero (get_data img) [X * Zd; 1; 1; T]).
  { unfold flatten_data, shape_at. by rewrite H0, H2, H3. }
  split.
  { intros Hn. split.
    - by rewrite Hflat, (resize_raises _ _ Hn).
    - apply (maskSurface_not_resizable img hemi X Zd T H0 H2 H3 Hn). }
  intros -> Hwf.
  assert (Hsize : size_of [X * Zd; 1; 1; T] = size_of (shape (get_data img)))
    by (rewrite Hs, !size_of_4; lia).
  rewrite Hflat, (maskSurface_steps img hemi X Zd T H0 H2 H3).
  rewrite (resize_same_size _ _ Hwf Hsize). cbn [mbind result_bind].
  eexists. split; [reflexivity|]. cbn [shape data].
  split; [reflexivity|]. split; [reflexivity|]. split; [|split].
  - intros x z t Hx Hz Ht. unfold item. cbn [shape order data].
    rewrite Hs, new_order_after, Hs.
    rewrite offset_row by (try apply vertex_lt; assumption).
    rewrite offset_volume by assumption. cbn [mbind option_bind].
    f_equal.
    destruct (order (get_data img)); cbn [order_after vertex];
      [reflexivity|].
    destruct (both_contiguous relaxed [X; 1; Zd; T]) eqn:Hb; [|lia].
    apply both_contiguous_4 in Hb; [|apply mul_pos_4; lia].
    destruct Hb as [[_ Hl]|(_ & -> & _ & -> & ->)]; [|lia].
    repeat case_decide; try lia; subst;
      repeat match goal with
             | H : ?v < 1 |- _ =>
                 assert (v = 0) by lia; subst v; clear H
             end; lia.
  - by rewrite Hs.
  - intros mask Hm Hmwf.
    rewrite (resize_same_size mask [X; 1; Zd; T] Hmwf)
      by (rewrite Hm, !size_of_4; lia).
    eexists. split; [reflexivity|]. cbn [shape order data].
    split; [reflexivity|]. split; [reflexivity|].
    intros x z t Hx Hz Ht. unfold item. cbn [shape order data].
    rewrite Hm, new_order_after, Hm.
    rewrite offset_row by (try apply vertex_lt; assumption).
    rewrite offset_volume by assumption. cbn [mbind option_bind].
    f_equal.
    destruct (order mask); cbn [order_after vertex]; [reflexivity|].
    destruct (both_contiguous relaxed [X * Zd; 1; 1; T]) eqn:Hb;
      cbn [vertex]; [|lia].
    apply both_contiguous_4 in Hb; [|apply mul_pos_row; lia].
    destruct Hb as [[_ Hl]|(_ & Hn & _ & _ & ->)].
    + repeat case_decide; try lia;
        first [ subst T; assert (t = 0) as -> by lia; lia
              | replace (x * Zd + z) with 0 by nia; nia ].
    + replace (x * Zd + z) with 0 by nia. nia.
Qed.

End mask_proofs.

(** Concrete runs, on integer voxels with tables [lh = [1]], [rh = [0]]. *)

Lemma maskSurface_mask_witness :
  exists out,
    maskSurface true 0%Z 1%Z [1%Z] [0%Z]
      (volume [2; 1; 2; 2] [1; 2; 3; 4; 5; 6; 7; 8]%Z) "lh" = Ok out /\
    shape (get_data out) = [2; 1; 2; 2] /\
    item (get_data out) [1; 0; 0; 0] = Some 1%Z /\
    item (get_data out) [1; 0; 0; 1] = Some 1%Z /\
    item (get_data out) [0; 0; 1; 0] = Some 0%Z.
Proof.
  destruct (maskSurface_mask true 0%Z 1%Z [1%Z] [0%Z] 2 2 2
              (volume [2; 1; 2; 2] [1; 2; 3; 4; 5; 6; 7; 8]%Z) "lh" [1%Z]
              eq_refl (or_introl (conj eq_refl eq_refl))
              ltac:(repeat constructor; lia))
    as (out & Hout & Hshape & _ & _ & Hitem & _).
  exists out. split; [exact Hout|]. split; [exact Hshape|].
  assert (Hcase : 2 <= 2 \/ true = false) by (left; lia).
  split; [|split].
  - rewrite (Hitem Hcase 1 0 0) by lia. reflexivity.
  - rewrite (Hitem Hcase 1 0 1) by lia. reflexivity.
  - rewrite (Hitem Hcase 0 1 0) by lia. reflexivity.
Defined.

(** C1 as stated fails: with a table entry beyond X*Z the assignment
    raises IndexError; with Y = 2 the resize of an array as nibabel loads
    it raises ValueError; and on a Fortran-ordered (2, 1, 2, 2) volume
    with table [1] the position (0, 0, 1, 0), whose row-major index over
    the X and Z axes is 1, stays 0, while (1, 0, 0, 0) is marked. *)
Lemma maskSurface_mask_refuted :
  maskSurface true 0%Z 1%Z [5%Z] [0%Z] (volume [1; 1; 1; 1] [7%Z]) "lh"
    = Raise IndexError /\
  maskSurface true 0%Z 1%Z [1%Z] [0%Z] (volume [2; 2; 1; 1] [1; 2; 3; 4]%Z)
    "lh" = Raise ValueError /\
  exists out,
    maskSurface true 0%Z 1%Z [1%Z] [0%Z]
      (volume [2; 1; 2; 2] [1; 2; 3; 4; 5; 6; 7; 8]%Z) "lh" = Ok out /\
    Z.of_nat (0 * 2 + 1) ∈ [1%Z] /\
    item (get_data out) [0; 0; 1; 0] = Some 0%Z /\
    item (get_data out) [1; 0; 0; 0] = Some 1%Z.
Proof.
  split; [reflexivity|]. split; [reflexivity|].
  eexists. split; [reflexivity|]. split; [by left|].
  split; reflexivity.
Qed.

Lemma maskSurface_selector_witness :
  maskSurface true 0%Z 1%Z [1%Z] [0%Z] (volume [2; 1; 1; 1] [7; 8]%Z) "xx"
  = Raise (UnboundLocalError "chosenvertices").
Proof.
  apply (proj1 (proj2 (maskSurface_selector true 0%Z 1%Z [1%Z] [0%Z]
                         2 1 1 1 (volume [2; 1; 1; 1] [7; 8]%Z) "xx"
                         eq_refl))).
  - right. reflexivity.
  - discriminate.
  - discriminate.
Defined.

(** C2 as stated fails: the exception raised for an unknown selector is
    not an UnsupportedHemisphereError, and with selector "lh" the run
    still fails on a volume with Y = 2 as nibabel loads it, and on a table
    entry beyond the volume. *)
Lemma maskSurface_selector_refuted :
  (~ exists e,
       maskSurface true 0%Z 1%Z [1%Z] [0%Z] (volume [2; 1; 1; 1] [7; 8]%Z)
         "xx" = Raise e /\
       exn_name e = "UnsupportedHemisphereError") /\
  ~ succeeds (maskSurface true 0%Z 1%Z [1%Z] [0%Z]
                (volume [2; 2; 1; 1] [1; 2; 3; 4]%Z) "lh") /\
  ~ succeeds (maskSurface true 0%Z 1%Z [5%Z] [0%Z]
                (volume [1; 1; 1; 1] [7%Z]) "lh").
Proof.
  split; [|split].
  - intros (e & He & Hname). vm_compute in He.
    injection He as <-. discriminate Hname.
  - intros [out Hout]. discriminate Hout.
  - intros [out Hout]. discriminate Hout.
Qed.

Lemma resize_element_preserving_witness :
  exists d,
    flatten_data true 0%Z (get_data (volume [2; 1; 2; 1] [10; 11; 12; 13]%Z))
      = Ok d /\
    shape d = [4; 1; 1; 1] /\
    data d = [10; 11; 12; 13]%Z /\
    item d [1; 0; 0; 0]
      = item (get_data (volume [2; 1; 2; 1] [10; 11; 12; 13]%Z)) [1; 0; 0; 0].
Proof.
  destruct (proj2 (resize_element_preserving true 0%Z 1%Z [1%Z] [0%Z]
                     2 1 2 1 (volume [2; 1; 2; 1] [10; 11; 12; 13]%Z) "lh"
                     eq_refl) eq_refl eq_refl)
    as (d & Hd & Hshape & Hdata & Hitem & _).
  exists d. split; [exact Hd|]. split; [exact Hshape|]. split; [exact Hdata|].
  apply (Hitem 1 0 0); lia.
Defined.

(** C3 as stated fails: on a Fortran-ordered (2, 1, 2, 1) volume, row 1 of
    the resized array, the row-major index of (x, z) = (0, 1), holds the
    voxel of (1, 0); with Y = 2 the resize of an array as nibabel loads it
    raises ValueError, and that of an array that owns its buffer keeps
    only the first X*Z*T elements. *)
Lemma resize_contract_refuted :
  (exists d,
     flatten_data true 0%Z
       (get_data (volume [2; 1; 2; 1] [10; 11; 12; 13]%Z)) = Ok d /\
     item d [0 * 2 + 1; 0; 0; 0] = Some 11%Z /\
     item (get_data (volume [2; 1; 2; 1] [10; 11; 12; 13]%Z)) [0; 0; 1; 0]
       = Some 12%Z /\
     item (get_data (volume [2; 1; 2; 1] [10; 11; 12; 13]%Z)) [1; 0; 0; 0]
       = Some 11%Z) /\
  flatten_data true 0%Z (get_data (volume [2; 2; 1; 1] [1; 2; 3; 4]%Z))
    = Raise ValueError /\
  (exists d,
     flatten_data true 0%Z
       (get_data (array_volume C_order true [2; 2; 1; 1] [1; 2; 3; 4]%Z))
       = Ok d /\
     shape d = [2; 1; 1; 1] /\ data d = [1; 2]%Z).
Proof.
  split; [|split].
  - eexists. split; [reflexivity|]. repeat split; reflexivity.
  - reflexivity.
  - eexists. split; [reflexivity|]. split; reflexivity.
Qed.

(** C10: the output-listing step files the result under the undeclared key
    'mask_surface'; the declared output 'surface_mask' is still undefined
    after every successful run, which has written 'surfacemask.nii'. *)
Theorem declared_output_stays_undefined :
  _list_outputs !! "surface_mask" = Some Undefined /\
  _list_outputs !! "mask_surface" = Some (FileName "surfacemask.nii") /\
  ("mask_surface" ∉ output_spec) /\
  (forall k, k ∈ output_spec -> _list_outputs !! k = Some Undefined) /\
  (forall (A Aff : Type) (relaxed : bool) (zero one : A)
          (lhvertices rhvertices : list Z)
          (self : inputs) (fs fs' : gmap string (image A Aff)),
     _run_interface relaxed zero one lhvertices rhvertices self fs = Ok fs' ->
     is_Some (fs' !! "surfacemask.nii") /\
     _list_outputs !! "surface_mask" = Some Undefined).
Proof.
  assert (H1 : _list_outputs !! "surface_mask" = Some Undefined)
    by reflexivity.
  split; [exact H1|]. split; [reflexivity|]. split.
  { unfold output_spec. intros Hin.
    apply list_elem_of_singleton in Hin. discriminate Hin. }
  split.
  { unfold output_spec. intros k Hin.
    apply list_elem_of_singleton in Hin. subst k. exact H1. }
  intros A Aff relaxed zero one lh rh self fs fs' Hrun. split; [|exact H1].
  unfold _run_interface in Hrun.
  destruct (load fs (sxfmout self)) as [img|e]; [|discriminate Hrun].
  cbn [mbind result_bind] in Hrun.
  destruct (maskSurface relaxed zero one lh rh img (hemi self)) as [m|e];
    [|discriminate Hrun].
  cbn [mbind result_bind] in Hrun. injection Hrun as <-.
  rewrite lookup_insert_eq. by eexists.
Qed.

Lemma declared_output_stays_undefined_witness :
  is_Some
    ((<["surfacemask.nii" :=
         mk_image (mk_ndarray [2; 1; 1; 1] C_order true false [0; 1]%Z) tt]>
        ({["surf.nii" := volume [2; 1; 1; 1] [7; 8]%Z]}
           : gmap string (image Z unit))) !! "surfacemask.nii") /\
  _list_outputs !! "surface_mask" = Some Undefined.
Proof.
  apply (proj2 (proj2 (proj2 (proj2 declared_output_stays_undefined)))
           Z unit true 0%Z 1%Z [1%Z] [0%Z] (mk_inputs "surf.nii" "lh")
           {["surf.nii" := volume [2; 1; 1; 1] [7; 8]%Z]}).
  vm_compute. reflexivity.
Defined.

End MaskSurfaceProofs.

(** * Properties of the workflow construction *)

Module LsdRestingProofs.
Import LsdResting LsdRestingSpec.

(** C9: fmap_info is defined on 'rest1a', 'rest1b', 'rest2a', 'rest2b' only,
    where it returns ('fmap1','y-'), ('fmap1','y'), ('fmap2','y-') and
    ('fmap2','y'); on every other scan identifier it returns nothing and
    raises the unbound-variable error, not a typed error of its own. *)
Theorem fmap_info_table :
  fmap_info "rest1a" = Ok ("fmap1", "y-") /\
  fmap_info "rest1b" = Ok ("fmap1", "y") /\
  fmap_info "rest2a" = Ok ("fmap2", "y-") /\
  fmap_info "rest2b" = Ok ("fmap2", "y") /\
  (forall scan_id,
     scan_id ∉ ["rest1a"; "rest1b"; "rest2a"; "rest2b"] ->
     fmap_info scan_id = Raise (UnboundLocalError "fmap_id")) /\
  (forall scan_id,
     succeeds (fmap_info scan_id) <->
     scan_id ∈ ["rest1a"; "rest1b"; "rest2a"; "rest2b"]).
Proof.
  assert (Hother : forall scan_id,
            scan_id ∉ ["rest1a"; "rest1b"; "rest2a"; "rest2b"] ->
            fmap_info scan_id = Raise (UnboundLocalError "fmap_id")).
  { intros scan_id Hnot. unfold fmap_info.
    rewrite !decide_False; [reflexivity|..];
      intros ->; apply Hnot; set_solver. }
  repeat split; try reflexivity.
  - exact Hother.
  - intros [r Hr].
    destruct (decide (scan_id ∈ ["rest1a"; "rest1b"; "rest2a"; "rest2b"]))
      as [Hin|Hnot]; [exact Hin|].
    rewrite (Hother _ Hnot) in Hr. discriminate Hr.
  - intros Hin.
    repeat (apply elem_of_cons in Hin as [->|Hin]; [eexists; reflexivity|]).
    by apply elem_of_nil in Hin.
Qed.

Lemma fmap_info_table_witness :
  fmap_info "rest3" = Raise (UnboundLocalError "fmap_id").
Proof.
  apply (proj1 (proj2 (proj2 (proj2 (proj2 fmap_info_table))))).
  intros Hin.
  repeat (apply elem_of_cons in Hin as [Hin|Hin]; [discriminate Hin|]).
  by apply elem_of_nil in Hin.
Defined.


Section construction.
Variables (subject : value) (working_dir out_dir : string).
Variables (freesurfer_dir data_dir echo_space te_diff vol_to_remove : value).
Variables (scans : list string) (epi_resolution : value).
Variables (TR highpass lowpass : float).

Abbreviation built :=
  (create_lsd_resting subject working_dir out_dir freesurfer_dir data_dir
     echo_space te_diff vol_to_remove scans epi_resolution TR highpass lowpass).

(** The construction fails only in the two divisions. *)
Lemma create_lsd_resting_cases :
  (PrimFloat.eqb (2 * TR * highpass) 0 = false /\
   PrimFloat.eqb (2 * TR * lowpass) 0 = false /\
   exists wf, built = Ok wf) \/
  ((PrimFloat.eqb (2 * TR * highpass) 0 = true \/
    PrimFloat.eqb (2 * TR * lowpass) 0 = true) /\
   built = Raise ZeroDivisionError).
Proof.
  unfold create_lsd_resting, py_truediv.
  destruct (PrimFloat.eqb (2 * TR * highpass) 0) eqn:Hh;
    cbn [mbind result_bind].
  - right. split; [by left | reflexivity].
  - destruct (PrimFloat.eqb (2 * TR * lowpass) 0) eqn:Hl;
      cbn [mbind result_bind].
    + right. split; [by right | reflexivity].
    + left. split; [reflexivity|]. split; [reflexivity|].
      eexists; reflexivity.
Qed.

(** What the constructed workflow holds in the inputs the configuration
    parameters are meant for. *)
Lemma create_lsd_resting_holds :
  match built with
  | Ok wf =>
      input_of wf remove_vol "t_min" = Some vol_to_remove /\
      input_of wf fmap_coreg "inputnode.echo_space" = Some echo_space /\
      input_of wf fmap_coreg "inputnode.te_diff" = Some te_diff /\
      input_of wf transform_ts "inputnode.resolution" = Some epi_resolution /\
      input_of wf denoise "inputnode.tr" = Some (VFloat TR) /\
      (iterables <$> find_node wf scan_infosource)
        = Some (Some ("scan_id", scans)) /\
      input_of wf denoise "inputnode.highpass_sigma"
        = Some (VFloat (1 / (2 * TR * highpass))) /\
      input_of wf denoise "inputnode.lowpass_sigma"
        = Some (VFloat (1 / (2 * TR * lowpass)))
  | Raise _ => True
  end.
Proof.
  unfold create_lsd_resting, py_truediv.
  destruct (PrimFloat.eqb (2 * TR * highpass) 0);
    cbn [mbind result_bind]; [exact I|].
  destruct (PrimFloat.eqb (2 * TR * lowpass) 0);
    cbn [mbind result_bind]; [exact I|].
  repeat split; vm_compute; reflexivity.
Qed.

(** C4 (amended): echo spacing, echo-time difference, volumes-to-discard,
    scan identifiers, target resolution and repetition time reach their node
    inputs unmodified; the highpass and lowpass cutoffs do not: the inputs
    highpass_sigma and lowpass_sigma of the denoising pipeline receive
    1/(2*TR*highpass) and 1/(2*TR*lowpass), and the construction raises
    ZeroDivisionError exactly when one of the two divisors is zero. *)
Theorem create_lsd_resting_inputs :
  (succeeds built <->
   PrimFloat.eqb (2 * TR * highpass) 0 = false /\
   PrimFloat.eqb (2 * TR * lowpass) 0 = false) /\
  (~ succeeds built -> built = Raise ZeroDivisionError) /\
  (forall wf, built = Ok wf ->
     input_of wf remove_vol "t_min" = Some vol_to_remove /\
     input_of wf fmap_coreg "inputnode.echo_space" = Some echo_space /\
     input_of wf fmap_coreg "inputnode.te_diff" = Some te_diff /\
     input_of wf transform_ts "inputnode.resolution" = Some epi_resolution /\
     input_of wf denoise "inputnode.tr" = Some (VFloat TR) /\
     (iterables <$> find_node wf scan_infosource)
       = Some (Some ("scan_id", scans)) /\
     input_of wf denoise "inputnode.highpass_sigma"
       = Some (VFloat (1 / (2 * TR * highpass))) /\
     input_of wf denoise "inputnode.lowpass_sigma"
       = Some (VFloat (1 / (2 * TR * lowpass)))).
Proof.
  split; [|split].
  - destruct create_lsd_resting_cases as [(Hh & Hl & wf & Hwf)|[Hz Hr]].
    + split; [by intros _ | intros _; by exists wf].
    + rewrite Hr. split.
      * intros [wf Hwf]; discriminate Hwf.
      * intros [Hh Hl]. destruct Hz as [Hz|Hz]; congruence.
  - destruct create_lsd_resting_cases as [(_ & _ & wf & Hwf)|[_ Hr]].
    + intros Hn. exfalso. apply Hn. by exists wf.
    + intros _. exact Hr.
  - intros wf Hwf. pose proof create_lsd_resting_holds as Hholds.
    rewrite Hwf in Hholds. exact Hholds.
Qed.
(** The structure of the constructed graph. *)
Lemma create_lsd_resting_structure :
  match built with
  | Ok wf =>
      base_dir wf = working_dir /\
      crashdump_dir wf = Some (working_dir ++ "/crash_files") /\
      (node_interface <$> find_node wf sink)
        = Some (DataSink false out_dir sink_substitutions) /\
      (node_cls <$> wf_nodes wf)
        = [Node; Node; Node; Workflow; Node; Node; Workflow; Workflow;
           Workflow] /\
      (node_obj <$> wf_nodes wf)
        = [scan_infosource; selectfiles; fmap_infosource; fmap_coreg; sink;
           remove_vol; moco; transform_ts; denoise] /\
      (iterables <$> wf_nodes wf)
        = [Some ("scan_id", scans); None; None; None; None; None; None;
           None; None] /\
      bool_decide (((scan_infosource, "scan_id"), (sink, "container"))
                     ∈ wf_bindings wf) = true
  | Raise _ => True
  end.
Proof.
  unfold create_lsd_resting, py_truediv.
  destruct (PrimFloat.eqb (2 * TR * highpass) 0);
    cbn [mbind result_bind]; [exact I|].
  destruct (PrimFloat.eqb (2 * TR * lowpass) 0);
    cbn [mbind result_bind]; [exact I|].
  repeat split; vm_compute; reflexivity.
Qed.

(** How the sink's clones are fed. *)
Lemma create_lsd_resting_sink :
  match built with
  | Ok wf =>
      Engine.iterable_source wf = Some (scan_infosource, "scan_id", scans) /\
      (forall v, Engine.clone_input wf sink "container" v = Some v)
  | Raise _ => True
  end.
Proof.
  unfold create_lsd_resting, py_truediv.
  destruct (PrimFloat.eqb (2 * TR * highpass) 0);
    cbn [mbind result_bind]; [exact I|].
  destruct (PrimFloat.eqb (2 * TR * lowpass) 0);
    cbn [mbind result_bind]; [exact I|].
  split; [vm_compute; reflexivity|].
  intros v; vm_compute; reflexivity.
Qed.

End construction.

Lemma create_lsd_resting_inputs_witness :
  exists wf,
    create_lsd_resting (VStr "sub01") "/work" "/out" (VStr "/fs")
      (VStr "/data") (VFloat 0.5) (VFloat 0.25) (VInt 5)
      ["rest1a"; "rest1b"] (VFloat 2) 2 0.125 0.5 = Ok wf /\
    input_of wf denoise "inputnode.highpass_sigma"
      = Some (VFloat (1 / (2 * 2 * 0.125))) /\
    input_of wf remove_vol "t_min" = Some (VInt 5).
Proof.
  eexists. split; [reflexivity|].
  pose proof (proj2 (proj2 (create_lsd_resting_inputs (VStr "sub01") "/work"
                "/out" (VStr "/fs") (VStr "/data") (VFloat 0.5) (VFloat 0.25)
                (VInt 5) ["rest1a"; "rest1b"] (VFloat 2) 2 0.125 0.5))
              _ eq_refl) as (Ht & _ & _ & _ & _ & _ & Hh & _).
  split; [exact Hh | exact Ht].
Defined.

Lemma differs_from_eighth_by_test v :
  is_eighth v = false -> v <> VFloat 0.125.
Proof. intros Hv ->. vm_compute in Hv. discriminate Hv. Qed.

(** C4 as stated fails: with TR = 2 and highpass = 0.125 the highpass_sigma
    input of the denoising pipeline is 2, not the supplied cutoff, and no
    input of that pipeline is named after the cutoff. *)
Lemma highpass_cutoff_is_transformed :
  exists wf,
    create_lsd_resting (VStr "sub01") "/work" "/out" (VStr "/fs")
      (VStr "/data") (VFloat 0.5) (VFloat 0.25) (VInt 5)
      ["rest1a"; "rest1b"] (VFloat 2) 2 0.125 0.5 = Ok wf /\
    input_of wf denoise "inputnode.highpass_sigma" = Some (VFloat 2) /\
    VFloat 2 <> VFloat 0.125 /\
    input_of wf denoise "inputnode.lowpass_sigma" = Some (VFloat 0.5) /\
    input_of wf denoise "inputnode.highpass" = None /\
    Forall (fun kv => kv.2 <> VFloat 0.125)
      (n ← wf_nodes wf; map_to_list (inputs n)).
Proof.
  eexists. split; [reflexivity|].
  split; [vm_compute; reflexivity|].
  split; [apply differs_from_eighth_by_test; reflexivity|].
  split; [vm_compute; reflexivity|].
  split; [vm_compute; reflexivity|].
  vm_compute.
  repeat (apply Forall_cons; split;
          [intros Heq; apply (f_equal is_eighth) in Heq;
           vm_compute in Heq; discriminate Heq|]).
  constructor.
Qed.

End LsdRestingProofs.

(** * Properties of the engine as the workflow configures it *)

Module EngineProofs.
Import LsdResting Engine EngineSpec.

(** ** Sink rename rules *)

Lemma rename_no_match rules name :
  Forall (fun rule : string * string => matches rule.1 name = false) rules ->
  rename rules name = name.
Proof.
  induction rules as [|[p r] rules IH]; intros Hall; [reflexivity|].
  apply Forall_cons in Hall as [Hp Hall]. simpl in Hp.
  cbn [rename]. rewrite Hp. by apply IH.
Qed.

Lemma rename_first_match pre p r post name :
  Forall (fun rule : string * string => matches rule.1 name = false) pre ->
  matches p name = true ->
  rename (pre ++ (p, r) :: post) name = substitute p r name.
Proof.
  induction pre as [|[p' r'] pre IH]; intros Hall Hp.
  - cbn [app rename]. by rewrite Hp.
  - apply Forall_cons in Hall as [Hp' Hall]. simpl in Hp'.
    cbn [app rename]. rewrite Hp'. by apply IH.
Qed.

(** C5: the sink's rename rules are the ordered list of (matchPattern,
    replacement) pairs given in the source; applied to a base filename, the
    first rule whose pattern matches is the only rule applied, and a name no
    rule matches is kept. *)
Theorem sink_rename_first_match_wins :
  (forall subject working_dir out_dir freesurfer_dir data_dir echo_space
          te_diff vol_to_remove scans epi_resolution TR highpass lowpass wf,
     create_lsd_resting subject working_dir out_dir freesurfer_dir data_dir
       echo_space te_diff vol_to_remove scans epi_resolution TR highpass
       lowpass = Ok wf ->
     (node_interface <$> find_node wf sink)
       = Some (DataSink false out_dir sink_substitutions)) /\
  (forall pre p r post name,
     Forall (fun rule : string * string => matches rule.1 name = false) pre ->
     matches p name = true ->
     rename (pre ++ (p, r) :: post) name = substitute p r name) /\
  (forall rules name,
     Forall (fun rule : string * string => matches rule.1 name = false) rules ->
     rename rules name = name) /\
  (forall file root container rules,
     destination root container rules file
     = root ++ "/" ++ container ++ "/" ++ rename rules (base_filename file)).
Proof.
  split; [|split; [|split]].
  - intros subject working_dir out_dir freesurfer_dir data_dir echo_space
      te_diff vol_to_remove scans epi_resolution TR highpass lowpass wf Hwf.
    pose proof (LsdRestingProofs.create_lsd_resting_structure subject
                  working_dir out_dir freesurfer_dir data_dir echo_space
                  te_diff vol_to_remove scans epi_resolution TR highpass
                  lowpass) as Hst.
    rewrite Hwf in Hst. apply Hst.
  - apply rename_first_match.
  - apply rename_no_match.
  - reflexivity.
Qed.

(** Two rules of the sink match this name; the earlier one alone is
    applied. *)
Lemma sink_rename_first_match_wins_witness :
  rename sink_substitutions "stats.rest_coregistered_norm.rest_coregistered"
  = "stats.rest_coregistered_composite_norm" /\
  matches "stats.rest_coregistered"
    "stats.rest_coregistered_norm.rest_coregistered" = true.
Proof.
  split; [|reflexivity].
  exact (proj1 (proj2 sink_rename_first_match_wins)
           (take 12 sink_substitutions) "norm.rest_coregistered"
           "composite_norm" (drop 13 sink_substitutions)
           "stats.rest_coregistered_norm.rest_coregistered"
           ltac:(repeat constructor) eq_refl).
Defined.


(** ** Destination paths *)

Lemma append_cons c a b : String c a ++ b = String c (a ++ b).
Proof. reflexivity. Qed.

Lemma append_nil b : "" ++ b = b.
Proof. reflexivity. Qed.

Lemma has_sep_app a b : has_sep (a ++ b) = has_sep a || has_sep b.
Proof.
  induction a as [|c a IH]; [reflexivity|].
  rewrite append_cons. cbn [has_sep]. rewrite IH. by rewrite orb_assoc.
Qed.

Lemma base_filename_no_sep path : has_sep (base_filename path) = false.
Proof.
  induction path as [|c rest IH]; [reflexivity|].
  cbn [base_filename].
  destruct (has_sep rest) eqn:Hrest; [exact IH|].
  destruct (bool_decide (c = "/"%char)) eqn:Hc; [exact Hrest|].
  cbn [has_sep]. by rewrite Hc, Hrest.
Qed.

Lemma substitute_from_no_sep pat rep s : forall skip,
  has_sep rep = false -> has_sep s = false ->
  has_sep (substitute_from pat rep skip s) = false.
Proof.
  induction s as [|c s IH]; intros skip Hrep Hs; [reflexivity|].
  cbn [has_sep] in Hs. apply orb_false_iff in Hs as [Hc Hs].
  cbn [substitute_from]. destruct skip as [|k]; [|by apply IH].
  destruct (String.prefix pat (String c s)).
  - rewrite has_sep_app, Hrep. by apply IH.
  - cbn [has_sep]. rewrite Hc. by apply IH.
Qed.

Lemma rename_no_sep rules name :
  Forall (fun rule : string * string => has_sep rule.2 = false) rules ->
  has_sep name = false -> has_sep (rename rules name) = false.
Proof.
  induction rules as [|[p r] rules IH]; intros Hall Hname; [exact Hname|].
  apply Forall_cons in Hall as [Hr Hall]. simpl in Hr.
  cbn [rename]. destruct (matches p name); [|by apply IH].
  by apply substitute_from_no_sep.
Qed.

Lemma sink_replacements_no_sep :
  Forall (fun rule : string * string => has_sep rule.2 = false)
    sink_substitutions.
Proof. repeat constructor. Qed.

Lemma append_inj_l root a b : root ++ a = root ++ b -> a = b.
Proof.
  induction root as [|c root IH]; [by intros|].
  rewrite !append_cons. intros Heq. injection Heq as Heq. by apply IH.
Qed.

(** A container and a separator-free name are recovered from their join. *)
Lemma container_of_join c1 : forall c2 n1 n2,
  has_sep n1 = false -> has_sep n2 = false ->
  c1 ++ "/" ++ n1 = c2 ++ "/" ++ n2 -> c1 = c2.
Proof.
  induction c1 as [|a c1 IH]; intros [|b c2] n1 n2 H1 H2 Heq.
  - reflexivity.
  - exfalso. rewrite ?append_nil, ?append_cons, ?append_nil in Heq.
    injection Heq as _ Heq. subst n1.
    rewrite has_sep_app, ?append_cons in H1. cbn [has_sep] in H1.
    rewrite bool_decide_eq_true_2 in H1 by reflexivity.
    rewrite orb_true_r in H1. discriminate H1.
  - exfalso. rewrite ?append_nil, ?append_cons, ?append_nil in Heq.
    injection Heq as _ Heq. subst n2.
    rewrite has_sep_app, ?append_cons in H2. cbn [has_sep] in H2.
    rewrite bool_decide_eq_true_2 in H2 by reflexivity.
    rewrite orb_true_r in H2. discriminate H2.
  - rewrite !(append_cons _ _ ("/" ++ _)) in Heq. injection Heq as -> Heq.
    f_equal. by apply (IH c2 n1 n2).
Qed.

Lemma destination_container root c1 c2 rules f1 f2 :
  Forall (fun rule : string * string => has_sep rule.2 = false) rules ->
  destination root c1 rules f1 = destination root c2 rules f2 -> c1 = c2.
Proof.
  intros Hrules Heq. unfold destination in Heq.
  apply append_inj_l in Heq. rewrite ?append_cons, ?append_nil in Heq.
  injection Heq as Heq.
  eapply (container_of_join c1 c2); [| |exact Heq];
    apply rename_no_sep; auto using base_filename_no_sep.
Qed.


(** C6: the constructed workflow has no Join Point; it iterates the
    scan_id field of scan_infosource over the scans, and that field is bound
    to the sink's container, so the sink's clone for a value places every
    file under that value's container; the destination paths of the clones
    of two distinct values are never the same. *)
Theorem sink_destinations_disjoint
    subject working_dir out_dir freesurfer_dir data_dir echo_space te_diff
    vol_to_remove scans epi_resolution TR highpass lowpass wf :
  create_lsd_resting subject working_dir out_dir freesurfer_dir data_dir
    echo_space te_diff vol_to_remove scans epi_resolution TR highpass
    lowpass = Ok wf ->
  Forall (fun n => is_join_point n = false) (wf_nodes wf) /\
  iterable_source wf = Some (scan_infosource, "scan_id", scans) /\
  ((scan_infosource, "scan_id"), (sink, "container")) ∈ wf_bindings wf /\
  (forall v file,
     sink_destination wf v file
     = Some (destination out_dir v sink_substitutions file)) /\
  (forall v1 v2 f1 f2 d1 d2,
     v1 <> v2 ->
     sink_destination wf v1 f1 = Some d1 ->
     sink_destination wf v2 f2 = Some d2 ->
     d1 <> d2).
Proof.
  intros Hwf.
  pose proof (LsdRestingProofs.create_lsd_resting_structure subject
                working_dir out_dir freesurfer_dir data_dir echo_space
                te_diff vol_to_remove scans epi_resolution TR highpass
                lowpass) as Hst.
  pose proof (LsdRestingProofs.create_lsd_resting_sink subject
                working_dir out_dir freesurfer_dir data_dir echo_space
                te_diff vol_to_remove scans epi_resolution TR highpass
                lowpass) as Hsk.
  rewrite Hwf in Hst, Hsk.
  destruct Hst as (_ & _ & Hif & Hcls & _ & _ & Hbind).
  destruct Hsk as (Hsrc & Hcont).
  assert (Hdest : forall v file,
            sink_destination wf v file
            = Some (destination out_dir v sink_substitutions file)).
  { intros v file. unfold sink_destination.
    destruct (find_node wf sink) as [n|]; [|discriminate Hif].
    injection Hif as Hif. cbn [mbind option_bind]. rewrite Hif.
    by rewrite (Hcont v). }
  split; [|split; [exact Hsrc|split; [|split; [exact Hdest|]]]].
  - assert (Hall : Forall (fun c => match c with
                                   | JoinNode _ _ => false
                                   | _ => true
                                   end = true) (node_cls <$> wf_nodes wf)).
    { rewrite Hcls. repeat constructor. }
    apply Forall_fmap in Hall. eapply Forall_impl; [exact Hall|].
    intros n. unfold is_join_point. cbn. by destruct (node_cls n).
  - by apply bool_decide_eq_true in Hbind.
  - intros v1 v2 f1 f2 d1 d2 Hne H1 H2 Heq.
    rewrite Hdest in H1, H2. injection H1 as <-. injection H2 as <-.
    apply Hne.
    exact (destination_container _ _ _ _ _ _ sink_replacements_no_sep Heq).
Qed.

Lemma sink_destinations_disjoint_witness :
  exists wf,
    create_lsd_resting (VStr "sub01") "/work" "/out" (VStr "/fs")
      (VStr "/data") (VFloat 0.5) (VFloat 0.25) (VInt 5)
      ["rest1a"; "rest1b"] (VFloat 2) 2 0.125 0.5 = Ok wf /\
    sink_destination wf "rest1a" "/work/moco/rest_realigned.nii.gz.par"
      = Some "/out/rest1a/rest_realigned.par" /\
    sink_destination wf "rest1b" "/work/moco/rest_realigned.nii.gz.par"
      = Some "/out/rest1b/rest_realigned.par" /\
    "/out/rest1a/rest_realigned.par" <> "/out/rest1b/rest_realigned.par".
Proof.
  eexists. split; [reflexivity|].
  pose proof (sink_destinations_disjoint (VStr "sub01") "/work" "/out"
                (VStr "/fs") (VStr "/data") (VFloat 0.5) (VFloat 0.25)
                (VInt 5) ["rest1a"; "rest1b"] (VFloat 2) 2 0.125 0.5
                _ eq_refl) as (_ & _ & _ & Hdest & Hdisj).
  assert (H1 : sink_destination _ "rest1a" "/work/moco/rest_realigned.nii.gz.par"
               = Some "/out/rest1a/rest_realigned.par")
    by (rewrite Hdest; vm_compute; reflexivity).
  assert (H2 : sink_destination _ "rest1b" "/work/moco/rest_realigned.nii.gz.par"
               = Some "/out/rest1b/rest_realigned.par")
    by (rewrite Hdest; vm_compute; reflexivity).
  split; [exact H1|]. split; [exact H2|].
  apply (Hdisj "rest1a" "rest1b" _ _ _ _ ltac:(discriminate) H1 H2).
Defined.

End EngineProofs.

(** * Iterable expansion *)

Module ExpansionProofs.
Import Engine.

Section region.
Context {N : Type} `{Countable N}.
Implicit Types (g : graph N) (X Y : gset N) (n m src : N).

Lemma elem_of_fed_by g X m :
  m ∈ fed_by g X <->
  g_join g m = false /\ exists n, n ∈ X /\ (n, m) ∈ g_edges g.
Proof.
  unfold fed_by. rewrite elem_of_list_to_set, list_elem_of_filter,
    list_elem_of_fmap. split.
  - intros (Hj & [n m'] & -> & He). apply list_elem_of_filter in He as [Hn He].
    split; [exact Hj|]. exists n. split; [exact Hn | exact He].
  - intros (Hj & n & Hn & He). split; [exact Hj|]. exists (n, m).
    split; [reflexivity|]. apply list_elem_of_filter. split; [exact Hn | exact He].
Qed.

(** All the nodes some binding feeds. *)
Lemma fed_by_targets g X : fed_by g X ⊆ list_to_set (snd <$> g_edges g).
Proof.
  intros m Hm. apply elem_of_fed_by in Hm as (_ & n & _ & He).
  apply elem_of_list_to_set, list_elem_of_fmap. by exists (n, m).
Qed.

Lemma fed_by_mono g X Y : X ⊆ Y -> fed_by g X ⊆ fed_by g Y.
Proof.
  intros HXY m Hm. apply elem_of_fed_by in Hm as (Hj & n & Hn & He).
  apply elem_of_fed_by. split; [exact Hj|]. exists n. split; [by apply HXY | exact He].
Qed.

Lemma closure_incl fuel g : forall X, X ⊆ closure fuel g X.
Proof.
  induction fuel as [|k IH]; intros X; [done|].
  cbn [closure]. etrans; [|apply IH]. set_solver.
Qed.

Lemma closure_closed_id fuel g : forall X,
  fed_by g X ⊆ X -> closure fuel g X = X.
Proof.
  induction fuel as [|k IH]; intros X Hc; [reflexivity|].
  cbn [closure]. replace (X ∪ fed_by g X) with X by set_solver.
  by apply IH.
Qed.

Lemma closure_bounded fuel g Y : forall X,
  X ⊆ Y -> fed_by g Y ⊆ Y -> closure fuel g X ⊆ Y.
Proof.
  induction fuel as [|k IH]; intros X HX HY; [exact HX|].
  cbn [closure]. apply IH; [|exact HY].
  pose proof (fed_by_mono g X Y HX). set_solver.
Qed.

Lemma closure_sound fuel g src : forall X,
  (forall m, m ∈ X -> reaches g src m) ->
  forall m, m ∈ closure fuel g X -> reaches g src m.
Proof.
  induction fuel as [|k IH]; intros X HX m Hm; [by apply HX|].
  cbn [closure] in Hm. apply (IH (X ∪ fed_by g X)); [|exact Hm].
  intros m' [Hm'|Hm']%elem_of_union; [by apply HX|].
  apply elem_of_fed_by in Hm' as (Hj & n & Hn & He).
  eapply reaches_step; [apply HX, Hn | exact He | exact Hj].
Qed.

Lemma size_list_to_set_le (l : list N) :
  size (list_to_set l : gset N) <= length l.
Proof.
  induction l as [|x l IH]; [by rewrite list_to_set_nil, size_empty|].
  rewrite list_to_set_cons, size_union_alt, size_singleton. cbn [length].
  pose proof (subseteq_size (list_to_set l ∖ {[x]}) (list_to_set l : gset N)
                ltac:(set_solver)). lia.
Qed.

(** Each round either adds a node or has reached a closed set. *)
Lemma closure_progress fuel g Y : forall X,
  X ⊆ Y -> fed_by g Y ⊆ Y ->
  fed_by g (closure fuel g X) ⊆ closure fuel g X \/
  size X + fuel <= size (closure fuel g X).
Proof.
  induction fuel as [|k IH]; intros X HX HY; [right; cbn [closure]; lia|].
  cbn [closure].
  destruct (decide (fed_by g X ⊆ X)) as [Hc|Hc].
  - left. replace (X ∪ fed_by g X) with X by set_solver.
    by rewrite (closure_closed_id k g X Hc).
  - assert (Hsub : X ∪ fed_by g X ⊆ Y).
    { pose proof (fed_by_mono g X Y HX). set_solver. }
    destruct (IH (X ∪ fed_by g X) Hsub HY) as [Hcl|Hsz]; [by left|right].
    assert (X ⊂ X ∪ fed_by g X) as Hlt%subset_size by set_solver.
    lia.
Qed.

Lemma closure_saturates g X :
  X ⊆ list_to_set (snd <$> g_edges g) ->
  fed_by g (closure (length (g_edges g)) g X)
    ⊆ closure (length (g_edges g)) g X.
Proof.
  intros HX.
  set (Y := list_to_set (snd <$> g_edges g) : gset N) in *.
  assert (HY : fed_by g Y ⊆ Y) by apply fed_by_targets.
  destruct (closure_progress (length (g_edges g)) g Y X HX HY) as [Hc|Hsz];
    [exact Hc|].
  pose proof (closure_bounded (length (g_edges g)) g Y X HX HY) as Hb.
  assert (HsY : size Y <= length (g_edges g)).
  { subst Y. etrans; [apply size_list_to_set_le|]. by rewrite length_fmap. }
  assert (Heq : closure (length (g_edges g)) g X = Y).
  { apply set_subseteq_size_eq; [exact Hb | lia]. }
  rewrite Heq. exact HY.
Qed.

(** The computed region is the region of the specification. *)
Lemma downstream_reaches g src m :
  m ∈ downstream g src <-> reaches g src m.
Proof.
  unfold downstream. split.
  - apply closure_sound. intros m' Hm'.
    apply elem_of_fed_by in Hm' as (Hj & n & ->%elem_of_singleton & He).
    by apply reaches_direct.
  - pose proof (closure_saturates g (fed_by g {[src]}) (fed_by_targets _ _))
      as Hclosed.
    pose proof (closure_incl (length (g_edges g)) g (fed_by g {[src]}))
      as Hincl.
    induction 1 as [m He Hj|n m Hr IH He Hj].
    + apply Hincl, elem_of_fed_by. split; [exact Hj|].
      exists src. split; [by apply elem_of_singleton | exact He].
    + apply Hclosed, elem_of_fed_by. split; [exact Hj|].
      exists n. split; [exact IH | exact He].
Qed.

Section clones.
Context {V : Type}.
Implicit Types (values : list V) (c : clone N V).

Lemma clones_of_row n n' values :
  clones_of n ((fun v => (n', v)) <$> values)
  = if decide (n' = n) then (fun v => (n, v)) <$> values else [].
Proof.
  unfold clones_of. destruct (decide (n' = n)) as [->|Hne].
  - induction values as [|v values IH]; [reflexivity|].
    rewrite fmap_cons, filter_cons_True by reflexivity.
    f_equal. exact IH.
  - induction values as [|v values IH]; [reflexivity|].
    rewrite fmap_cons, filter_cons_False by exact Hne. exact IH.
Qed.

Lemma clones_of_app n (l1 l2 : list (clone N V)) :
  clones_of n (l1 ++ l2)%list = (clones_of n l1 ++ clones_of n l2)%list.
Proof. apply filter_app. Qed.

Lemma clones_of_rows n values (l : list N) :
  NoDup l ->
  clones_of n (n' ← l; (fun v => (n', v)) <$> values)
  = if decide (n ∈ l) then (fun v => (n, v)) <$> values else [].
Proof.
  induction 1 as [|a l Ha Hl IH].
  - rewrite decide_False by apply not_elem_of_nil. reflexivity.
  - rewrite bind_cons, clones_of_app, clones_of_row, IH.
    destruct (decide (a = n)) as [->|Hne].
    + rewrite (decide_False (P := n ∈ l)) by exact Ha.
      rewrite decide_True by (by left). apply app_nil_r.
    + destruct (decide (n ∈ l)) as [Hin|Hin].
      * rewrite decide_True by (by right). reflexivity.
      * rewrite decide_False; [reflexivity|].
        intros [->|Hin']%elem_of_cons; [by apply Hne | by apply Hin].
Qed.

Lemma elem_of_expand g src values c :
  c ∈ expand g src values <-> reaches g src c.1 /\ c.2 ∈ values.
Proof.
  unfold expand. rewrite list_elem_of_bind. split.
  - intros (n & Hc & Hn). apply list_elem_of_fmap in Hc as (v & -> & Hv).
    split; [|exact Hv]. by apply downstream_reaches, elem_of_elements.
  - intros [Hr Hv]. exists c.1. split.
    + apply list_elem_of_fmap. exists c.2. split; [by destruct c | exact Hv].
    + by apply elem_of_elements, downstream_reaches.
Qed.

Lemma workdir_inj (root : list (segment N V)) c1 c2 :
  workdir root c1 = workdir root c2 -> c1 = c2.
Proof.
  unfold workdir. intros Heq. apply app_inv_head in Heq.
  destruct c1, c2. cbn in Heq. by injection Heq as -> ->.
Qed.

(** C7: for every sequence of values given to an iterable source, each
    node reachable from the source (transitively, not through or into a
    Join Point) is cloned once per value, in the order of the values, the
    clone of node n for value v being identified by (n, v); no other node
    is cloned; and distinct clones have distinct working directories, the
    directory embedding the value. *)
Theorem iterable_expansion_clones g src values
    (root : list (segment N V)) :
  (forall n, reaches g src n ->
     clones_of n (expand g src values) = (fun v => (n, v)) <$> values) /\
  (forall n, ~ reaches g src n -> clones_of n (expand g src values) = []) /\
  (forall c, c ∈ expand g src values <->
             reaches g src c.1 /\ c.2 ∈ values) /\
  (forall c, workdir root c = (root ++ [ValueDir c.2; NodeDir c.1])%list) /\
  (forall c1 c2, c1 <> c2 -> workdir root c1 <> workdir root c2).
Proof.
  split; [|split; [|split; [|split]]].
  - intros n Hn. unfold expand.
    rewrite clones_of_rows by apply NoDup_elements.
    rewrite decide_True; [reflexivity|].
    by apply elem_of_elements, downstream_reaches.
  - intros n Hn. unfold expand.
    rewrite clones_of_rows by apply NoDup_elements.
    rewrite decide_False; [reflexivity|].
    intros Hin. by apply Hn, downstream_reaches, elem_of_elements.
  - apply elem_of_expand.
  - reflexivity.
  - intros c1 c2 Hne Heq. by apply Hne, (workdir_inj root).
Qed.

End clones.
End region.

(** In the constructed workflow the sink is fed by the iterable source, so
    it is cloned once per scan. *)
Lemma iterable_expansion_clones_witness :
  clones_of LsdResting.sink
    (expand (graph_of LsdRestingSpec.example_workflow)
       LsdResting.scan_infosource ["rest1a"; "rest1b"])
  = [(LsdResting.sink, "rest1a"); (LsdResting.sink, "rest1b")] /\
  workdir [Dir "/work"; Dir "lsd_resting"] (LsdResting.sink, "rest1a")
  <> workdir [Dir "/work"; Dir "lsd_resting"] (LsdResting.sink, "rest1b").
Proof.
  pose proof (iterable_expansion_clones
                (graph_of LsdRestingSpec.example_workflow)
                LsdResting.scan_infosource ["rest1a"; "rest1b"]
                [Dir "/work"; Dir "lsd_resting"])
    as (Hclones & _ & _ & _ & Hdirs).
  split.
  - apply Hclones. apply reaches_direct; vm_compute; [|reflexivity].
    repeat first [apply list_elem_of_here | apply list_elem_of_further].
  - apply Hdirs. discriminate.
Defined.

End ExpansionProofs.

(** * Failures during execution (specification 4.4) *)

Module ExecutorProofs.
Import LsdResting Engine EngineSpec.

Section executor_proofs.
Context {N : Type} `{Countable N} {Out : Type}.
Variable compute : N -> list (N * Out) -> result Out.
Variable workdir_of : N -> string.
Variable dir : string.
Variable g : graph N.

Lemma elem_of_upstream d n : d ∈ upstream g n <-> (d, n) ∈ g_edges g.
Proof.
  unfold upstream. rewrite list_elem_of_fmap. split.
  - intros ([d' n'] & -> & Hin). apply list_elem_of_filter in Hin as [Hn Hin].
    cbn in Hn. by subst n'.
  - intros Hin. exists (d, n). split; [reflexivity|].
    by apply list_elem_of_filter.
Qed.

(** ** The schedule *)

Lemma topo_upstream l n :
  topo g l -> n ∈ l -> Forall (fun d => d ∈ l) (upstream g n).
Proof.
  induction 1 as [|l m Hl IH Hm Hup]; [by intros ?%elem_of_nil|].
  intros [Hn| ->%list_elem_of_singleton]%elem_of_app.
  - eapply Forall_impl; [exact (IH Hn)|]. intros d Hd.
    apply elem_of_app. by left.
  - eapply Forall_impl; [exact Hup|]. intros d Hd.
    apply elem_of_app. by left.
Qed.

Lemma topo_depends l n f :
  topo g l -> n ∈ l -> depends_on g n f -> f ∈ l.
Proof.
  intros Hl Hn Hdep. induction Hdep as [n f Hf|n f d Hd _ IH].
  - pose proof (topo_upstream l n Hl Hn) as Hup.
    rewrite Forall_forall in Hup. by apply Hup, elem_of_upstream.
  - apply IH. pose proof (topo_upstream l n Hl Hn) as Hup.
    rewrite Forall_forall in Hup. by apply Hup, elem_of_upstream.
Qed.

Lemma schedule_loop_topo fuel : forall placed remaining order,
  topo g placed ->
  (forall n, n ∈ placed -> n ∉ remaining) ->
  schedule_loop g fuel placed remaining = Some order ->
  topo g order /\ forall n, n ∈ order <-> n ∈ placed \/ n ∈ remaining.
Proof.
  assert (Hdone : forall placed order,
            topo g placed -> Some placed = Some order ->
            topo g order /\ forall n, n ∈ order <-> n ∈ placed \/ n ∈ []).
  { intros placed order Hp [= <-]. split; [exact Hp|].
    intros n. rewrite elem_of_nil. tauto. }
  induction fuel as [|k IH]; intros placed remaining order Hp Hdis Hs.
  - destruct remaining; [by apply Hdone | discriminate Hs].
  - destruct remaining as [|r rs]; [by apply Hdone|].
    cbn [schedule_loop] in Hs.
    destruct (List.find _ (r :: rs)) as [n|] eqn:Hfind; [|discriminate Hs].
    apply find_some in Hfind as [Hin Hready].
    apply list_elem_of_In in Hin. apply bool_decide_eq_true in Hready.
    apply IH in Hs as [Ho Hmem].
    + split; [exact Ho|]. intros m. rewrite Hmem, elem_of_app.
      rewrite list_elem_of_singleton, list_elem_of_filter.
      destruct (decide (m = n)) as [->|Hne]; [tauto|]. tauto.
    + apply topo_snoc; [exact Hp| |exact Hready].
      intros Hn. by apply (Hdis n Hn).
    + intros m [Hm| ->%list_elem_of_singleton]%elem_of_app.
      * intros [_ Hm']%list_elem_of_filter. by apply (Hdis m Hm).
      * intros [Hne _]%list_elem_of_filter. by apply Hne.
Qed.

(** A schedule holds every node of the graph, each after its producers. *)
Lemma schedule_topo order :
  schedule g = Some order ->
  topo g order /\ forall n, n ∈ order <-> n ∈ g_nodes g.
Proof.
  intros Hs. apply schedule_loop_topo in Hs as [Ho Hmem].
  - split; [exact Ho|]. intros n. rewrite Hmem, elem_of_nil. tauto.
  - constructor.
  - by intros n ?%elem_of_nil.
Qed.

(** ** The executor *)

Lemma elem_of_snoc {X} (l : list X) x : x ∈ (l ++ [x])%list.
Proof. apply elem_of_app. right. by apply list_elem_of_singleton. Qed.

Lemma resolve_frame (st st' : run_state) m :
  (forall d, d ∈ upstream g m -> st_status st' !! d = st_status st !! d) ->
  resolve g st' m = resolve (Out:=Out) g st m.
Proof.
  intros Hst. unfold resolve. apply Forall_mapM_ext, Forall_forall.
  intros d Hd. by rewrite (Hst d Hd).
Qed.

Lemma resolve_None (st : run_state) n :
  resolve (Out:=Out) g st n = None <->
  exists d, d ∈ upstream g n /\
            forall o, st_status st !! d <> Some (Completed o).
Proof.
  unfold resolve. rewrite mapM_None, Exists_exists.
  split; intros (d & Hd & Hx); exists d; (split; [exact Hd|]).
  - intros o Ho. rewrite Ho in Hx. discriminate Hx.
  - destruct (st_status st !! d) as [[o| |]|]; try reflexivity.
    by destruct (Hx o).
Qed.

(** The state after the nodes of an order of execution have been run, one
    after the other. *)
Lemma run_inv l :
  topo g l ->
  forall st, st = foldl (execute_node compute workdir_of dir g) (mk_run_state ∅ []) l ->
  (forall n, is_Some (st_status st !! n) <-> n ∈ l) /\
  (forall n e, st_status st !! n = Some (Failed e) ->
     exists ins, resolve g st n = Some ins /\ compute n ins = Raise e /\
                 mk_crash_record dir n (workdir_of n) ins e ∈ st_crashes st) /\
  (forall c, c ∈ st_crashes st ->
     crash_dir c = dir /\
     crash_workdir c = workdir_of (crash_node c) /\
     st_status st !! crash_node c = Some (Failed (crash_error c))) /\
  (forall n, st_status st !! n = Some Blocked ->
     exists f e, depends_on g n f /\ st_status st !! f = Some (Failed e)) /\
  (forall n f e, n ∈ l -> depends_on g n f ->
     st_status st !! f = Some (Failed e) ->
     st_status st !! n = Some Blocked) /\
  (forall n o, st_status st !! n = Some (Completed o) ->
     exists ins, resolve g st n = Some ins /\ compute n ins = Ok o).
Proof.
  induction 1 as [|l n Hl IH Hn Hup]; intros st' Hst'.
  { subst st'. cbn [foldl st_status st_crashes].
    split; [|split; [|split; [|split; [|split]]]].
    - intros n. rewrite lookup_empty, elem_of_nil.
      split; [by intros [? ?] | done].
    - intros n e Hf. by rewrite lookup_empty in Hf.
    - by intros c ?%elem_of_nil.
    - intros n Hb. by rewrite lookup_empty in Hb.
    - by intros n f e ?%elem_of_nil.
    - intros n o Hc. by rewrite lookup_empty in Hc. }
  rewrite foldl_snoc in Hst'.
  destruct (IH _ eq_refl) as (HA & HF & HC & HB & HD & HE). clear IH.
  set (st := foldl (execute_node compute workdir_of dir g) (mk_run_state ∅ []) l) in *.
  assert (Hnone : st_status st !! n = None).
  { destruct (st_status st !! n) as [x|] eqn:Hx; [|reflexivity].
    exfalso. apply Hn, HA. by exists x. }
  assert (Hin : forall m x, st_status st !! m = Some x -> m ∈ l /\ m <> n).
  { intros m x Hm. split; [apply HA; by exists x|].
    intros ->. rewrite Hnone in Hm. discriminate Hm. }
  assert (Hupn : forall m, m ∈ (l ++ [n])%list -> forall d, d ∈ upstream g m ->
            d ∈ l /\ d <> n).
  { intros m Hm d Hd.
    assert (d ∈ l) as Hdl.
    { apply elem_of_app in Hm as [Hm| ->%list_elem_of_singleton].
      - pose proof (topo_upstream l m Hl Hm) as Hall.
        rewrite Forall_forall in Hall. by apply Hall.
      - rewrite Forall_forall in Hup. by apply Hup. }
    split; [exact Hdl|]. intros ->. by apply Hn. }
  assert (Hdn : forall f e, depends_on g n f ->
            st_status st !! f = Some (Failed e) -> resolve g st n = None).
  { intros f e Hdep Hf. apply resolve_None.
    destruct Hdep as [f Hedge|f d Hedge Hd].
    - exists f. split; [by apply elem_of_upstream|].
      intros o Ho. rewrite Hf in Ho. discriminate Ho.
    - exists d. split; [by apply elem_of_upstream|].
      assert (d ∈ l) as Hdl.
      { apply (Hupn n); [apply elem_of_snoc | by apply elem_of_upstream]. }
      rewrite (HD d f e Hdl Hd Hf). discriminate. }
  assert (Hgen : forall (x : status) crashes,
            (forall c, c ∈ st_crashes st -> c ∈ crashes) ->
            st' = mk_run_state (<[n := x]> (st_status st)) crashes ->
            (forall m y, st_status st !! m = Some y ->
               st_status st' !! m = Some y) /\
            st_status st' !! n = Some x /\
            (forall m, m <> n -> st_status st' !! m = st_status st !! m) /\
            (forall m, m ∈ (l ++ [n])%list -> resolve g st' m = resolve g st m) /\
            (forall m, is_Some (st_status st' !! m) <-> m ∈ (l ++ [n])%list)).
  { intros x crashes Hsub ->. cbn [st_status].
    assert (Hne : forall m, m <> n ->
              <[n := x]> (st_status st) !! m = st_status st !! m)
      by (intros m Hm; by rewrite lookup_insert_ne).
    split; [|split; [|split; [|split]]].
    - intros m y Hm. rewrite Hne; [exact Hm|]. by apply (Hin m y).
    - by rewrite lookup_insert_eq.
    - exact Hne.
    - intros m Hm. apply resolve_frame. intros d Hd. cbn [st_status].
      apply Hne. by apply (Hupn m Hm d Hd).
    - intros m. rewrite elem_of_app, list_elem_of_singleton, <- HA.
      destruct (decide (m = n)) as [->|Hm].
      + rewrite lookup_insert_eq. split; [by right | by eexists].
      + rewrite Hne by done. split; [by left | by intros [?|?]]. }
  unfold execute_node in Hst'.
  destruct (resolve g st n) as [ins|] eqn:Hres;
    [destruct (compute n ins) as [o|e] eqn:Hc|].
  - (* the node completes *)
    destruct (Hgen _ _ (fun c Hc => Hc) Hst')
      as (Hkeep & Hnew & Hne & Hresolve & HA').
    split; [exact HA'|]. split; [|split; [|split; [|split]]].
    + intros m e Hm. destruct (decide (m = n)) as [->|Hmn];
        [rewrite Hnew in Hm; discriminate Hm|].
      rewrite Hne in Hm by done. destruct (HF m e Hm) as (i & Hi & Hci & Hrec).
      exists i. rewrite Hresolve by (apply elem_of_app; left; by apply (Hin m _ Hm)).
      split; [exact Hi|]. split; [exact Hci|]. by subst st'.
    + intros c Hcr. subst st'. cbn [st_crashes] in Hcr.
      destruct (HC c Hcr) as (Hd & Hw & Hs). split; [exact Hd|].
      split; [exact Hw|]. by apply (Hkeep _ _ Hs).
    + intros m Hm. destruct (decide (m = n)) as [->|Hmn];
        [rewrite Hnew in Hm; discriminate Hm|].
      rewrite Hne in Hm by done. destruct (HB m Hm) as (f & e & Hdep & Hf).
      exists f, e. split; [exact Hdep | by apply Hkeep].
    + intros m f e Hm Hdep Hf.
      assert (f ∈ (l ++ [n])%list) as Hfl
        by (apply (topo_depends _ m); [by constructor | done | done]).
      assert (f <> n) as Hfn
        by (intros ->; rewrite Hnew in Hf; discriminate Hf).
      rewrite Hne in Hf by done.
      apply elem_of_app in Hm as [Hm| ->%list_elem_of_singleton].
      * apply (Hkeep m). by apply (HD m f e).
      * discriminate (Hdn f e Hdep Hf).
    + intros m o' Hm. destruct (decide (m = n)) as [->|Hmn].
      * rewrite Hnew in Hm. injection Hm as <-. exists ins.
        rewrite Hresolve by apply elem_of_snoc. by split.
      * rewrite Hne in Hm by done. destruct (HE m o' Hm) as (i & Hi & Hci).
        exists i. rewrite Hresolve
          by (apply elem_of_app; left; by apply (Hin m _ Hm)).
        by split.
  - (* the node fails *)
    destruct (Hgen _ _ (fun c Hc => proj2 (elem_of_app _ _ c) (or_introl Hc))
                Hst')
      as (Hkeep & Hnew & Hne & Hresolve & HA').
    assert (Hcr : st_crashes st'
                  = (st_crashes st ++ [mk_crash_record dir n (workdir_of n) ins e])%list)
      by (by subst st').
    split; [exact HA'|]. split; [|split; [|split; [|split]]].
    + intros m e' Hm. rewrite Hcr. destruct (decide (m = n)) as [->|Hmn].
      * rewrite Hnew in Hm. injection Hm as <-. exists ins.
        rewrite Hresolve by apply elem_of_snoc.
        split; [exact Hres|]. split; [exact Hc|]. apply elem_of_snoc.
      * rewrite Hne in Hm by done.
        destruct (HF m e' Hm) as (i & Hi & Hci & Hrec).
        exists i. rewrite Hresolve
          by (apply elem_of_app; left; by apply (Hin m _ Hm)).
        split; [exact Hi|]. split; [exact Hci|].
        apply elem_of_app. by left.
    + intros c Hc'. rewrite Hcr in Hc'.
      apply elem_of_app in Hc' as [Hc'| ->%list_elem_of_singleton].
      * destruct (HC c Hc') as (Hd & Hw & Hs). split; [exact Hd|].
        split; [exact Hw|]. by apply (Hkeep _ _ Hs).
      * cbn [crash_dir crash_node crash_error crash_workdir]. by repeat split.
    + intros m Hm. destruct (decide (m = n)) as [->|Hmn];
        [rewrite Hnew in Hm; discriminate Hm|].
      rewrite Hne in Hm by done. destruct (HB m Hm) as (f & e' & Hdep & Hf).
      exists f, e'. split; [exact Hdep | by apply Hkeep].
    + intros m f e' Hm Hdep Hf.
      assert (f ∈ l) as Hfl.
      { apply elem_of_app in Hm as [Hm| ->%list_elem_of_singleton].
        - by apply (topo_depends _ m).
        - destruct Hdep as [f Hedge|f d Hedge Hd].
          + apply (Hupn n); [apply elem_of_snoc | by apply elem_of_upstream].
          + apply (topo_depends _ d); [done| |done].
            apply (Hupn n); [apply elem_of_snoc | by apply elem_of_upstream]. }
      assert (f <> n) as Hfn by (intros ->; by apply Hn).
      rewrite Hne in Hf by done.
      apply elem_of_app in Hm as [Hm| ->%list_elem_of_singleton].
      * apply (Hkeep m). by apply (HD m f e').
      * discriminate (Hdn f e' Hdep Hf).
    + intros m o Hm. destruct (decide (m = n)) as [->|Hmn];
        [rewrite Hnew in Hm; discriminate Hm|].
      rewrite Hne in Hm by done. destruct (HE m o Hm) as (i & Hi & Hci).
      exists i. rewrite Hresolve
        by (apply elem_of_app; left; by apply (Hin m _ Hm)).
      by split.
  - (* the node is blocked *)
    destruct (Hgen _ _ (fun c Hc => Hc) Hst')
      as (Hkeep & Hnew & Hne & Hresolve & HA').
    split; [exact HA'|]. split; [|split; [|split; [|split]]].
    + intros m e Hm. destruct (decide (m = n)) as [->|Hmn];
        [rewrite Hnew in Hm; discriminate Hm|].
      rewrite Hne in Hm by done. destruct (HF m e Hm) as (i & Hi & Hci & Hrec).
      exists i. rewrite Hresolve
        by (apply elem_of_app; left; by apply (Hin m _ Hm)).
      split; [exact Hi|]. split; [exact Hci|]. by subst st'.
    + intros c Hcr. subst st'. cbn [st_crashes] in Hcr.
      destruct (HC c Hcr) as (Hd & Hw & Hs). split; [exact Hd|].
      split; [exact Hw|]. by apply (Hkeep _ _ Hs).
    + intros m Hm. destruct (decide (m = n)) as [->|Hmn].
      * apply resolve_None in Hres as (d & Hd & Hnot).
        destruct (Hupn n (elem_of_snoc l n) d Hd) as [Hdl Hdn'].
        apply HA in Hdl as [x Hx].
        destruct x as [o|e|].
        -- by destruct (Hnot o).
        -- exists d, e. split; [|by apply Hkeep].
           apply depends_direct. by apply elem_of_upstream.
        -- destruct (HB d Hx) as (f & e & Hdep & Hf).
           exists f, e. split; [|by apply Hkeep].
           apply (depends_step _ _ _ d); [by apply elem_of_upstream | done].
      * rewrite Hne in Hm by done. destruct (HB m Hm) as (f & e & Hdep & Hf).
        exists f, e. split; [exact Hdep | by apply Hkeep].
    + intros m f e Hm Hdep Hf.
      apply elem_of_app in Hm as [Hm| ->%list_elem_of_singleton];
        [|exact Hnew].
      assert (f ∈ l) as Hfl by (by apply (topo_depends _ m)).
      assert (f <> n) as Hfn by (intros ->; by apply Hn).
      rewrite Hne in Hf by done.
      apply (Hkeep m). by apply (HD m f e).
    + intros m o Hm. destruct (decide (m = n)) as [->|Hmn];
        [rewrite Hnew in Hm; discriminate Hm|].
      rewrite Hne in Hm by done. destruct (HE m o Hm) as (i & Hi & Hci).
      exists i. rewrite Hresolve
        by (apply elem_of_app; left; by apply (Hin m _ Hm)).
      by split.
Qed.

(** What an execution leaves behind, for every graph that can be
    scheduled. *)
Lemma execute_spec st :
  execute compute workdir_of dir g = Some st ->
  (forall n, n ∈ g_nodes g -> is_Some (st_status st !! n)) /\
  (forall n e, st_status st !! n = Some (Failed e) ->
     exists ins, resolve g st n = Some ins /\ compute n ins = Raise e /\
                 mk_crash_record dir n (workdir_of n) ins e ∈ st_crashes st) /\
  (forall c, c ∈ st_crashes st ->
     crash_dir c = dir /\
     crash_workdir c = workdir_of (crash_node c) /\
     st_status st !! crash_node c = Some (Failed (crash_error c))) /\
  (forall n, n ∈ g_nodes g ->
     (forall f e, st_status st !! f = Some (Failed e) ->
        ~ depends_on g n f) ->
     executed st n) /\
  (forall n f e, n ∈ g_nodes g -> depends_on g n f ->
     st_status st !! f = Some (Failed e) ->
     st_status st !! n = Some Blocked).
Proof.
  unfold execute. destruct (schedule g) as [order|] eqn:Hs; [|discriminate].
  cbn [mbind option_bind]. intros [= <-].
  apply schedule_topo in Hs as [Ho Hmem].
  destruct (run_inv order Ho _ eq_refl) as (HA & HF & HC & HB & HD & _).
  split; [|split; [exact HF|split; [exact HC|split]]].
  - intros n Hn. by apply HA, Hmem.
  - intros n Hn Hfree. unfold executed.
    destruct (proj2 (HA n) (proj2 (Hmem n) Hn)) as [x Hx]. rewrite Hx.
    destruct x as [o|e|]; [exact I | exact I|].
    destruct (HB n Hx) as (f & e & Hdep & Hf). by apply (Hfree f e Hf).
  - intros n f e Hn. apply HD. by apply Hmem.
Qed.

End executor_proofs.

(** ** The constructed workflow *)

Section constructed.
Context {N : Type} `{Countable N} {Out : Type}.
Variables (subject : value) (working_dir out_dir : string).
Variables (freesurfer_dir data_dir echo_space te_diff vol_to_remove : value).
Variables (scans : list string) (epi_resolution : value).
Variables (TR highpass lowpass : float).

Abbreviation built :=
  (create_lsd_resting subject working_dir out_dir freesurfer_dir data_dir
     echo_space te_diff vol_to_remove scans epi_resolution TR highpass
     lowpass).

(** The constructed graph can be scheduled. *)
Lemma create_lsd_resting_schedule :
  match built with
  | Ok wf =>
      schedule (graph_of wf)
      = Some [scan_infosource; fmap_infosource; selectfiles; remove_vol;
              moco; fmap_coreg; transform_ts; denoise; sink]
  | Raise _ => True
  end.
Proof.
  unfold create_lsd_resting, py_truediv.
  destruct (PrimFloat.eqb (2 * TR * highpass) 0);
    cbn [mbind result_bind]; [exact I|].
  destruct (PrimFloat.eqb (2 * TR * lowpass) 0);
    cbn [mbind result_bind]; [exact I|].
  vm_compute. reflexivity.
Qed.

(** C8: the workflow's crash-dump directory is 'crash_files' under the
    working directory, and the constructed graph can be scheduled.
    Executing, with that crash-dump directory, a graph that can be
    scheduled gives every node a status, whatever the nodes compute; every
    node that failed has its crash record (the directory, the node, its
    working directory, the inputs it was run on, the error) in that
    directory, and every crash record there is that of a failed node;
    every node that depends on no failed node has been executed, and every
    node that depends on a failed node is blocked. *)
Theorem failures_leave_crash_records
    (compute : N -> list (N * Out) -> result Out)
    (workdir_of : N -> string) (g : graph N) wf :
  built = Ok wf ->
  is_Some (schedule g) ->
  exists dir st,
    crashdump_dir wf = Some dir /\
    dir = working_dir ++ "/crash_files" /\
    base_dir wf = working_dir /\
    is_Some (schedule (graph_of wf)) /\
    execute compute workdir_of dir g = Some st /\
    (forall n, n ∈ g_nodes g -> is_Some (st_status st !! n)) /\
    (forall n e, st_status st !! n = Some (Failed e) ->
       exists ins,
         resolve g st n = Some ins /\
         compute n ins = Raise e /\
         mk_crash_record dir n (workdir_of n) ins e ∈ st_crashes st) /\
    (forall c, c ∈ st_crashes st ->
       crash_dir c = dir /\
       crash_workdir c = workdir_of (crash_node c) /\
       st_status st !! crash_node c = Some (Failed (crash_error c))) /\
    (forall n, n ∈ g_nodes g ->
       (forall f e, st_status st !! f = Some (Failed e) ->
          ~ depends_on g n f) ->
       executed st n) /\
    (forall n f e, n ∈ g_nodes g ->
       depends_on g n f ->
       st_status st !! f = Some (Failed e) ->
       st_status st !! n = Some Blocked).
Proof.
  intros Hwf [order Hg].
  pose proof create_lsd_resting_schedule as Hs.
  pose proof (LsdRestingProofs.create_lsd_resting_structure subject
                working_dir out_dir freesurfer_dir data_dir echo_space
                te_diff vol_to_remove scans epi_resolution TR highpass
                lowpass) as Hst.
  rewrite Hwf in Hs, Hst. destruct Hst as (Hbase & Hcrash & _).
  assert (Hex : exists st,
            execute compute workdir_of (working_dir ++ "/crash_files") g
            = Some st).
  { unfold execute. rewrite Hg. cbn [mbind option_bind]. by eexists. }
  destruct Hex as [st Hex].
  exists (working_dir ++ "/crash_files"), st.
  split; [exact Hcrash|]. split; [reflexivity|]. split; [exact Hbase|].
  split; [by rewrite Hs|]. split; [exact Hex|].
  apply (execute_spec compute workdir_of _ _ st Hex).
Qed.

End constructed.

(** A run of the constructed graph in which the removal of the first
    volumes fails: its crash record is written, and the sink, which depends
    on it through motion correction, is blocked. *)
Lemma failures_leave_crash_records_witness :
  exists st ins,
    execute example_compute example_workdir "/work/crash_files"
      (graph_of LsdRestingSpec.example_workflow) = Some st /\
    st_status st !! remove_vol = Some (Failed (IOError "rest.nii.gz")) /\
    mk_crash_record "/work/crash_files" remove_vol
      "/work/lsd_resting/remove_vol" ins (IOError "rest.nii.gz")
      ∈ st_crashes st /\
    st_status st !! sink = Some Blocked.
Proof.
  destruct (failures_leave_crash_records (VStr "sub01") "/work" "/out"
              (VStr "/fs") (VStr "/data") (VFloat 0.5) (VFloat 0.25)
              (VInt 5) ["rest1a"; "rest1b"] (VFloat 2) 2 0.125 0.5
              example_compute example_workdir
              (graph_of LsdRestingSpec.example_workflow)
              LsdRestingSpec.example_workflow
              ltac:(vm_compute; reflexivity)
              ltac:(vm_compute; by eexists))
    as (dir & st & _ & -> & _ & _ & Hex & _ & HF & _ & _ & HD).
  assert (Hm : st_status st !! remove_vol
               = Some (Failed (IOError "rest.nii.gz"))).
  { vm_compute in Hex. injection Hex as <-. vm_compute. reflexivity. }
  destruct (HF remove_vol _ Hm) as (ins & _ & _ & Hrec).
  exists st, ins. split; [exact Hex|]. split; [exact Hm|].
  split; [exact Hrec|].
  apply (HD sink remove_vol (IOError "rest.nii.gz")); [| |exact Hm].
  - vm_compute.
    repeat first [apply list_elem_of_here | apply list_elem_of_further].
  - apply (depends_step _ _ _ moco).
    + vm_compute.
      repeat first [apply list_elem_of_here | apply list_elem_of_further].
    + apply depends_direct. vm_compute.
      repeat first [apply list_elem_of_here | apply list_elem_of_further].
Defined.

End ExecutorProofs.

(** * Further properties of the surface mask *)

Module MaskSurfaceExtra.
Import np MaskSurface MaskSurfaceSpec MaskSurfaceMore MaskSurfaceProofs.

Section more_mask.
Context {A Aff : Type}.
Variable relaxed : bool.
Variables zero one : A.
Variables lhvertices rhvertices : list Z.

Abbreviation run := (maskSurface relaxed zero one lhvertices rhvertices).
Abbreviation body := (fun mask vertex => fill_row mask vertex one).

(** X1: with fewer than four axes the shape lookup fails before the selector
    is looked at. *)
Theorem maskSurface_needs_four_axes (img : image A Aff) hemi :
  length (shape (get_data img)) < 4 -> run img hemi = Raise IndexError.
Proof.
  intros Hlen. unfold maskSurface, flatten_data, shape_at.
  destruct (shape (get_data img)) as [|a [|b [|c [|d s]]]];
    cbn [length] in Hlen; try lia; reflexivity.
Qed.

(** X2: the voxel values of the input are never read: two inputs that
    differ in their voxel values only give the same result. *)
Theorem maskSurface_ignores_voxels (a b : image A Aff) hemi :
  shape (get_data a) = shape (get_data b) ->
  order (get_data a) = order (get_data b) ->
  owndata (get_data a) = owndata (get_data b) ->
  referenced (get_data a) = referenced (get_data b) ->
  get_affine a = get_affine b ->
  run a hemi = run b hemi.
Proof.
  intros Hs Ho Hown Href Ha.
  destruct (shape (get_data b) !! 0) as [d0|] eqn:H0;
    [|unfold maskSurface, flatten_data, shape_at; by rewrite Hs, H0].
  destruct (shape (get_data b) !! 2) as [d2|] eqn:H2;
    [|unfold maskSurface, flatten_data, shape_at; by rewrite Hs, H0, H2].
  destruct (shape (get_data b) !! 3) as [d3|] eqn:H3;
    [|unfold maskSurface, flatten_data, shape_at; by rewrite Hs, H0, H2, H3].
  assert (Hsame : resizable (get_data a) [d0 * d2; 1; 1; d3]
                  <-> resizable (get_data b) [d0 * d2; 1; 1; d3]).
  { unfold resizable. by rewrite Hs, Hown, Href. }
  destruct (resizable_dec (get_data b) [d0 * d2; 1; 1; d3]) as [Hr|Hn].
  - rewrite (maskSurface_resizable relaxed zero one lhvertices rhvertices
               b hemi d0 d2 d3 H0 H2 H3 Hr).
    rewrite (maskSurface_resizable relaxed zero one lhvertices rhvertices
               a hemi d0 d2 d3) by (rewrite ?Hs; tauto).
    unfold flattened. by rewrite new_order_after, Hs, Ho, Hown, Href, Ha.
  - rewrite (maskSurface_not_resizable relaxed zero one lhvertices rhvertices
               b hemi d0 d2 d3 H0 H2 H3 Hn).
    apply (maskSurface_not_resizable relaxed zero one lhvertices rhvertices
             a hemi d0 d2 d3); rewrite ?Hs; tauto.
Qed.

Lemma mask_inv_binary o n T rows (a : ndarray A) :
  mask_inv zero one o n T rows a -> binary zero one a.
Proof.
  intros (_ & _ & _ & _ & Hl & Hd). apply Forall_lookup. intros i x Hi.
  assert (Hlt : i < n * T) by (rewrite <- Hl; by eapply lookup_lt_Some).
  rewrite (Hd i Hlt) in Hi. injection Hi as <-.
  destruct (decide (row_of o n T i ∈ rows)); [by right | by left].
Qed.

Lemma mask_inv_ext o n T rows1 rows2 (a1 a2 : ndarray A) :
  mask_inv zero one o n T rows1 a1 -> mask_inv zero one o n T rows2 a2 ->
  (forall k, k ∈ rows1 <-> k ∈ rows2) -> a1 = a2.
Proof.
  intros (Hs1 & Ho1 & Hw1 & Hr1 & Hl1 & Hd1)
         (Hs2 & Ho2 & Hw2 & Hr2 & Hl2 & Hd2) Hrows.
  destruct a1 as [s1 o1 w1 r1 d1], a2 as [s2 o2 w2 r2 d2].
  cbn [shape order owndata referenced data] in *.
  subst s1 s2 o1 o2 w1 w2 r1 r2. f_equal. apply list_eq. intros i.
  destruct (decide (i < n * T)) as [Hlt|Hge].
  - rewrite (Hd1 i Hlt), (Hd2 i Hlt). f_equal. apply decide_ext, Hrows.
  - rewrite (lookup_ge_None_2 d1), (lookup_ge_None_2 d2) by lia. reflexivity.
Qed.

(** A successful run, taken apart. *)
Lemma maskSurface_success (img : image A Aff) hemi out :
  run img hemi = Ok out ->
  exists d0 d2 d3 vs o mask,
    shape (get_data img) !! 0 = Some d0 /\
    shape (get_data img) !! 2 = Some d2 /\
    shape (get_data img) !! 3 = Some d3 /\
    resizable (get_data img) [d0 * d2; 1; 1; d3] /\
    selects lhvertices rhvertices hemi vs /\
    Forall (valid_index (d0 * d2)) vs /\
    mask_inv zero one o (d0 * d2) d3 (reverse (wrap (d0 * d2) <$> vs) ++ [])
      mask /\
    resize relaxed zero mask (shape (get_data img)) = Ok (get_data out) /\
    get_affine out = get_affine img.
Proof.
  intros Hrun.
  destruct (shape (get_data img) !! 0) as [d0|] eqn:H0;
    [|unfold maskSurface, flatten_data, shape_at in Hrun;
      rewrite H0 in Hrun; discriminate].
  destruct (shape (get_data img) !! 2) as [d2|] eqn:H2;
    [|unfold maskSurface, flatten_data, shape_at in Hrun;
      rewrite H0, H2 in Hrun; discriminate].
  destruct (shape (get_data img) !! 3) as [d3|] eqn:H3;
    [|unfold maskSurface, flatten_data, shape_at in Hrun;
      rewrite H0, H2, H3 in Hrun; discriminate].
  destruct (resizable_dec (get_data img) [d0 * d2; 1; 1; d3]) as [Hr|Hn];
    [|rewrite (maskSurface_not_resizable relaxed zero one lhvertices
                 rhvertices img hemi d0 d2 d3 H0 H2 H3 Hn) in Hrun;
      discriminate].
  rewrite (maskSurface_resizable relaxed zero one lhvertices rhvertices
             img hemi d0 d2 d3 H0 H2 H3 Hr) in Hrun.
  destruct (chosenvertices lhvertices rhvertices hemi) as [vs|] eqn:Hch;
    [|discriminate Hrun].
  cbn [read_local mbind result_bind] in Hrun.
  pose proof (flattened_inv relaxed zero one (get_data img) (d0 * d2) d3)
    as Hz.
  destruct (decide (Forall (valid_index (d0 * d2)) vs)) as [Hall|Hbad];
    [|rewrite (loop_and_resize_fails relaxed zero one _ _ _ _ _ _ _ Hz Hbad)
        in Hrun; discriminate].
  destruct (loop_valid zero one _ _ _ vs [] _ Hz Hall) as (m & Hloop & Hinv).
  rewrite Hloop in Hrun. cbn [mbind result_bind] in Hrun.
  rewrite (mask_resize relaxed zero one _ _ _ _ _ (shape (get_data img)) Hinv)
    in Hrun.
  cbn [mbind result_bind] in Hrun. injection Hrun as <-.
  eexists d0, d2, d3, vs, _, m. cbn [get_data get_affine].
  split; [reflexivity|]. split; [reflexivity|]. split; [reflexivity|].
  split; [exact Hr|]. split; [by apply chosenvertices_selects|].
  split; [exact Hall|]. split; [exact Hinv|]. split; [|reflexivity].
  apply (mask_resize relaxed zero one _ _ _ _ _ _ Hinv).
Qed.

(** X3: whenever the run succeeds, the mask has the input's shape and affine,
    holds as many voxels as the shape says, and every voxel is 0 or 1. *)
Theorem maskSurface_success_binary (img : image A Aff) hemi out :
  run img hemi = Ok out ->
  shape (get_data out) = shape (get_data img) /\
  well_formed (get_data out) /\
  get_affine out = get_affine img /\
  binary zero one (get_data out).
Proof.
  intros Hrun.
  destruct (maskSurface_success img hemi out Hrun)
    as (d0 & d2 & d3 & vs & o & mask & _ & _ & _ & _ & _ & _ & Hinv & Hout
        & Haff).
  rewrite (mask_resize relaxed zero one _ _ _ _ _ _ Hinv) in Hout.
  injection Hout as <-. cbn [shape data].
  split; [reflexivity|]. split; [|split; [exact Haff|]].
  - unfold well_formed; cbn [shape data].
    rewrite length_app, length_take, length_replicate. lia.
  - unfold binary; cbn [data]. apply Forall_app. split.
    + apply Forall_take, (mask_inv_binary _ _ _ _ _ Hinv).
    + apply Forall_replicate. by left.
Qed.

(** X4: the table matters only as a set: order and repetitions of its entries
    are irrelevant, whatever the volume and the selector. *)
Theorem maskSurface_table_as_set (lh1 lh2 rh1 rh2 : list Z)
    (img : image A Aff) hemi :
  (forall v, v ∈ lh1 <-> v ∈ lh2) ->
  (forall v, v ∈ rh1 <-> v ∈ rh2) ->
  maskSurface relaxed zero one lh1 rh1 img hemi
  = maskSurface relaxed zero one lh2 rh2 img hemi.
Proof.
  intros Hlh Hrh.
  assert (Hloop : forall o n T vs1 vs2 (a : ndarray A),
            (forall v, v ∈ vs1 <-> v ∈ vs2) ->
            mask_inv zero one o n T [] a ->
            for_each body vs1 a = for_each body vs2 a).
  { intros o n T vs1 vs2 a Hvs Hz.
    destruct (decide (Forall (valid_index n) vs1)) as [Hall|Hbad].
    - assert (Hall2 : Forall (valid_index n) vs2).
      { rewrite Forall_forall in Hall |- *. intros v Hv. by apply Hall, Hvs. }
      destruct (loop_valid zero one o n T vs1 [] a Hz Hall)
        as (a1 & -> & Hinv1).
      destruct (loop_valid zero one o n T vs2 [] a Hz Hall2)
        as (a2 & -> & Hinv2).
      f_equal. apply (mask_inv_ext _ _ _ _ _ _ _ Hinv1 Hinv2).
      intros k. rewrite !app_nil_r, !elem_of_reverse, !list_elem_of_fmap.
      split; intros (v & -> & Hv); exists v; (split; [reflexivity|]);
        by apply Hvs.
    - assert (Hbad2 : ~ Forall (valid_index n) vs2).
      { intros Hall2. apply Hbad. rewrite Forall_forall in Hall2 |- *.
        intros v Hv. by apply Hall2, Hvs. }
      rewrite (proj2 (loop_succeeds_iff zero one o n T vs1 [] a Hz) Hbad).
      by rewrite (proj2 (loop_succeeds_iff zero one o n T vs2 [] a Hz) Hbad2). }
  unfold maskSurface.
  destruct (flatten_data relaxed zero (get_data img)) as [d|e] eqn:Hflat;
    [|reflexivity].
  cbn [mbind result_bind].
  assert (Hz : exists o n T,
            mask_inv zero one o n T [] (zeros_like relaxed zero d)).
  { unfold flatten_data, shape_at in Hflat.
    destruct (shape (get_data img) !! 0) as [d0|]; [|discriminate Hflat].
    destruct (shape (get_data img) !! 2) as [d2|]; [|discriminate Hflat].
    destruct (shape (get_data img) !! 3) as [d3|]; [|discriminate Hflat].
    cbn [mbind result_bind] in Hflat.
    exists (new_order relaxed d), (d0 * d2), d3.
    apply zeros_like_inv. unfold resize in Hflat.
    destruct (_ && _) in Hflat; [discriminate Hflat|].
    by injection Hflat as <-. }
  destruct Hz as (o & n & T & Hz).
  destruct (decide (hemi = "lh")) as [Hl|Hl];
    destruct (decide (hemi = "rh")) as [Hr|Hr];
    cbn [read_local mbind result_bind]; try reflexivity.
  - by rewrite (Hloop _ _ _ rh1 rh2 _ Hrh Hz).
  - by rewrite (Hloop _ _ _ lh1 lh2 _ Hlh Hz).
  - by rewrite (Hloop _ _ _ rh1 rh2 _ Hrh Hz).
Qed.

(** X5: entries may be negative: on a volume of shape (X, 1, Z, T) an
    entry v in [-X*Z, X*Z) marks the positions whose flattened vertex
    index is v mod X*Z, so a negative entry counts vertices from the end.
    The flattened vertex index runs over the X and Z axes in the memory
    order of the input when T >= 2 or numpy compares all strides; with a
    single frame under relaxed stride checking it is x*Z + z. *)
Theorem maskSurface_negative_entries X Zd T (img : image A Aff) hemi table :
  shape (get_data img) = [X; 1; Zd; T] ->
  selects lhvertices rhvertices hemi table ->
  Forall (valid_index (X * Zd)) table ->
  exists out,
    run img hemi = Ok out /\
    (2 <= T \/ relaxed = false ->
     forall x z t, x < X -> z < Zd -> t < T ->
       item (get_data out) [x; 0; z; t]
       = Some (if decide (vertex (order (get_data img)) X Zd x z
                          ∈ wrap (X * Zd) <$> table)
               then one else zero)) /\
    (relaxed = true -> T = 1 ->
     forall x z, x < X -> z < Zd ->
       item (get_data out) [x; 0; z; 0]
       = Some (if decide (x * Zd + z ∈ wrap (X * Zd) <$> table)
               then one else zero)).
Proof.
  intros Hs Hsel Htab.
  destruct (maskSurface_positions relaxed zero one lhvertices rhvertices
              X Zd T img hemi table Hs Hsel Htab)
    as (out & Hrun & _ & _ & _ & Hitem).
  exists out. split; [exact Hrun|]. split.
  - intros Hcase x z t Hx Hz Ht. rewrite (Hitem x z t Hx Hz Ht).
    by rewrite vertex_mask_order by (try assumption; lia).
  - intros Hr -> x z Hx Hz. rewrite (Hitem x z 0 Hx Hz) by lia.
    by rewrite (mask_order_single_frame _ _ _ _ Hr).
Qed.

(** X6: a successful run of the interface changes the file 'surfacemask.nii'
    and no other; run again on the result, with an input file other than
    'surfacemask.nii', it changes nothing. *)
Theorem run_interface_writes_one_file (self : inputs)
    (fs fs' : gmap string (image A Aff)) :
  _run_interface relaxed zero one lhvertices rhvertices self fs = Ok fs' ->
  (forall path, path <> "surfacemask.nii" -> fs' !! path = fs !! path) /\
  (exists img mask,
     fs !! sxfmout self = Some img /\ run img (hemi self) = Ok mask /\
     fs' !! "surfacemask.nii" = Some mask) /\
  (sxfmout self <> "surfacemask.nii" ->
   _run_interface relaxed zero one lhvertices rhvertices self fs' = Ok fs').
Proof.
  unfold _run_interface, load. intros Hrun.
  destruct (fs !! sxfmout self) as [img|] eqn:Himg; [|discriminate Hrun].
  cbn [mbind result_bind] in Hrun.
  destruct (run img (hemi self)) as [mask|e] eqn:Hmask; [|discriminate Hrun].
  cbn [mbind result_bind] in Hrun. injection Hrun as <-.
  split; [|split].
  - intros path Hne. by rewrite lookup_insert_ne.
  - exists img, mask. split; [reflexivity|]. split; [exact Hmask|].
    by rewrite lookup_insert_eq.
  - intros Hne. rewrite lookup_insert_ne by done. rewrite Himg.
    cbn [mbind result_bind]. rewrite Hmask. cbn [mbind result_bind].
    by rewrite insert_insert_eq.
Qed.

End more_mask.

(** Concrete runs. *)

Lemma maskSurface_needs_four_axes_witness :
  maskSurface true 0%Z 1%Z [1%Z] [0%Z]
    (volume [2; 1; 3] [1; 2; 3; 4; 5; 6]%Z) "xx"
  = Raise IndexError.
Proof.
  apply (maskSurface_needs_four_axes true 0%Z 1%Z [1%Z] [0%Z]). cbn. lia.
Defined.

Lemma maskSurface_ignores_voxels_witness :
  maskSurface true 0%Z 1%Z [1%Z] [0%Z] (volume [2; 1; 1; 1] [7; 8]%Z) "lh"
  = maskSurface true 0%Z 1%Z [1%Z] [0%Z] (volume [2; 1; 1; 1] [0; 0]%Z) "lh".
Proof.
  apply (maskSurface_ignores_voxels true 0%Z 1%Z [1%Z] [0%Z]); reflexivity.
Defined.

Lemma maskSurface_success_binary_witness :
  binary 0%Z 1%Z (mk_ndarray [2; 1; 1; 1] C_order true false [0; 1]%Z).
Proof.
  apply (maskSurface_success_binary true 0%Z 1%Z [1%Z] [0%Z]
           (volume [2; 1; 1; 1] [7; 8]%Z) "lh"
           (mk_image (mk_ndarray [2; 1; 1; 1] C_order true false [0; 1]%Z) tt)
           eq_refl).
Defined.

Lemma maskSurface_table_as_set_witness :
  maskSurface true 0%Z 1%Z [1; 0; 1]%Z [0%Z] (volume [2; 1; 1; 1] [7; 8]%Z)
    "lh"
  = maskSurface true 0%Z 1%Z [0; 1]%Z [0%Z] (volume [2; 1; 1; 1] [7; 8]%Z)
      "lh".
Proof.
  apply (maskSurface_table_as_set true 0%Z 1%Z [1; 0; 1]%Z [0; 1]%Z
           [0%Z] [0%Z]).
  - intros v. rewrite !elem_of_cons, !elem_of_nil. tauto.
  - tauto.
Defined.

Lemma maskSurface_negative_entries_witness :
  exists out,
    maskSurface true 0%Z 1%Z [(-2)%Z] [0%Z]
      (volume [2; 1; 2; 2] [1; 2; 3; 4; 5; 6; 7; 8]%Z) "lh" = Ok out /\
    item (get_data out) [0; 0; 1; 0] = Some 1%Z /\
    item (get_data out) [1; 0; 0; 0] = Some 0%Z.
Proof.
  destruct (maskSurface_negative_entries true 0%Z 1%Z [(-2)%Z] [0%Z] 2 2 2
              (volume [2; 1; 2; 2] [1; 2; 3; 4; 5; 6; 7; 8]%Z) "lh"
              [(-2)%Z] eq_refl
              (or_introl (conj eq_refl eq_refl))
              ltac:(repeat constructor; unfold valid_index; lia))
    as (out & Hout & Hitem & _).
  exists out. split; [exact Hout|].
  assert (Hcase : 2 <= 2 \/ true = false) by (left; lia).
  split.
  - rewrite (Hitem Hcase 0 1 0) by lia. reflexivity.
  - rewrite (Hitem Hcase 1 0 0) by lia. reflexivity.
Defined.

Lemma run_interface_writes_one_file_witness :
  example_fs_after !! "surf.nii" = example_fs !! "surf.nii" /\
  _run_interface true 0%Z 1%Z [1%Z] [0%Z] (mk_inputs "surf.nii" "lh")
    example_fs_after = Ok example_fs_after.
Proof.
  destruct (run_interface_writes_one_file true 0%Z 1%Z [1%Z] [0%Z]
              (mk_inputs "surf.nii" "lh") example_fs example_fs_after
              ltac:(vm_compute; reflexivity)) as (Hframe & _ & Hagain).
  split.
  - apply Hframe. discriminate.
  - apply Hagain. discriminate.
Defined.

End MaskSurfaceExtra.

(** * Further properties of the workflow construction *)

Module LsdRestingExtra.
Import LsdResting LsdRestingSpec LsdRestingMore.

(** ** [connect] *)

Lemma objects_add_node ns n o :
  o ∈ (node_obj <$> add_node ns n) <->
  o ∈ (node_obj <$> ns) \/ o = node_obj n.
Proof.
  unfold add_node.
  destruct (decide (node_obj n ∈ node_obj <$> ns)) as [Hin|Hin].
  - split; [by left | intros [Ho| ->]; assumption].
  - rewrite fmap_app, elem_of_app. cbn [fmap list_fmap].
    by rewrite list_elem_of_singleton.
Qed.

Lemma NoDup_add_node ns n :
  NoDup (node_obj <$> ns) -> NoDup (node_obj <$> add_node ns n).
Proof.
  intros Hnd. unfold add_node.
  destruct (decide (node_obj n ∈ node_obj <$> ns)) as [Hin|Hin];
    [exact Hnd|].
  rewrite fmap_app. apply NoDup_app. split; [exact Hnd|]. split.
  - intros o Ho Ho'. cbn [fmap list_fmap] in Ho'.
    apply list_elem_of_singleton in Ho' as ->. by apply Hin.
  - cbn [fmap list_fmap]. apply NoDup_singleton.
Qed.

Lemma add_node_prefix ns n : ns `prefix_of` add_node ns n.
Proof.
  unfold add_node. destruct (decide (node_obj n ∈ node_obj <$> ns)).
  - reflexivity.
  - by apply prefix_app_r.
Qed.

(** One connection: both nodes are in the graph afterwards, what was there
    stays, and the graph remains in order. *)
Lemma connect_one wf src dst ports :
  graph_ok wf ->
  graph_ok (connect wf [(src, dst, ports)]) /\
  wf_nodes wf `prefix_of` wf_nodes (connect wf [(src, dst, ports)]) /\
  wf_bindings wf `prefix_of` wf_bindings (connect wf [(src, dst, ports)]) /\
  base_dir (connect wf [(src, dst, ports)]) = base_dir wf /\
  crashdump_dir (connect wf [(src, dst, ports)]) = crashdump_dir wf /\
  wf_name (connect wf [(src, dst, ports)]) = wf_name wf.
Proof.
  intros [Hnd Hbs]. cbn [connect foldl].
  split; [|split; [|split; [|done]]].
  - split; unfold objects; cbn [wf_nodes wf_bindings].
    + by apply NoDup_add_node, NoDup_add_node.
    + apply Forall_app. split.
      * eapply Forall_impl; [exact Hbs|]. intros b [H1 H2].
        rewrite !objects_add_node. split; by left; left.
      * apply Forall_fmap, Forall_forall. intros [o i] _. cbn.
        rewrite !objects_add_node. split; [left; by right | by right].
  - cbn [wf_nodes]. etrans; apply add_node_prefix.
  - cbn [wf_bindings]. by apply prefix_app_r.
Qed.

Lemma connect_cons wf c cs :
  connect wf (c :: cs) = connect (connect wf [c]) cs.
Proof. reflexivity. Qed.

(** [connect] keeps a graph in order: it only appends nodes and bindings,
    never duplicates an object, binds only nodes of the graph, and leaves
    the directories and the name alone. *)
Theorem connect_keeps_graph_ok cs : forall wf,
  graph_ok wf ->
  graph_ok (connect wf cs) /\
  wf_nodes wf `prefix_of` wf_nodes (connect wf cs) /\
  wf_bindings wf `prefix_of` wf_bindings (connect wf cs) /\
  base_dir (connect wf cs) = base_dir wf /\
  crashdump_dir (connect wf cs) = crashdump_dir wf /\
  wf_name (connect wf cs) = wf_name wf.
Proof.
  induction cs as [|[[src dst] ports] cs IH]; intros wf Hok.
  - cbn [connect foldl]. done.
  - rewrite connect_cons.
    destruct (connect_one wf src dst ports Hok)
      as (Hok1 & Hn1 & Hb1 & Hd1 & Hc1 & Hw1).
    destruct (IH _ Hok1) as (Hok2 & Hn2 & Hb2 & Hd2 & Hc2 & Hw2).
    split; [exact Hok2|].
    split; [by etrans|]. split; [by etrans|].
    split; [congruence|]. split; congruence.
Qed.

(** ** Chains of bindings *)

Lemma chain_sound fuel bs : forall n m,
  chain fuel bs n m = true -> connected bs n m.
Proof.
  induction fuel as [|k IH]; intros n m Hc; [discriminate Hc|].
  cbn [chain] in Hc. apply existsb_exists in Hc as (b & Hb & Hc).
  apply list_elem_of_In in Hb.
  apply andb_true_iff in Hc as [Hn Hc]. apply bool_decide_eq_true in Hn.
  subst n. apply orb_true_iff in Hc as [Hm|Hc].
  - apply bool_decide_eq_true in Hm. subst m. by apply connected_direct.
  - apply connected_step; [exact Hb | by apply IH].
Qed.

Lemma connected_forward bs (rank : node_id -> nat) :
  Forall (fun b : binding => rank b.1.1 < rank b.2.1) bs ->
  forall n m, connected bs n m -> rank n < rank m.
Proof.
  intros Hfw n m Hc. rewrite Forall_forall in Hfw.
  induction Hc as [b Hb|b m Hb Hc IH].
  - by apply Hfw.
  - specialize (Hfw b Hb). lia.
Qed.

(** X7: distinct scans never share both the fieldmap and the phase-encode
    direction. *)
Theorem fmap_info_injective s1 s2 r :
  fmap_info s1 = Ok r -> fmap_info s2 = Ok r -> s1 = s2.
Proof.
  unfold fmap_info. intros H1 H2.
  repeat case_decide; subst; cbn in H1, H2; congruence.
Qed.

(** ** The wiring of the constructed graph *)

Section wiring.
Variables (subject : value) (working_dir out_dir : string).
Variables (freesurfer_dir data_dir echo_space te_diff vol_to_remove : value).
Variables (scans : list string) (epi_resolution : value).
Variables (TR highpass lowpass : float).

Abbreviation built :=
  (create_lsd_resting subject working_dir out_dir freesurfer_dir data_dir
     echo_space te_diff vol_to_remove scans epi_resolution TR highpass lowpass).

(** Checks on the constructed graph, each decided by evaluation. *)
Lemma create_lsd_resting_checks :
  match built with
  | Ok wf =>
      bool_decide (NoDup (objects wf)) = true /\
      forallb (fun b : binding =>
                 bool_decide (b.1.1 ∈ objects wf) &&
                 bool_decide (b.2.1 ∈ objects wf)) (wf_bindings wf) = true /\
      forallb (fun b : binding =>
                 Nat.ltb (node_id_index b.1.1) (node_id_index b.2.1))
        (wf_bindings wf) = true /\
      bool_decide (NoDup (snd <$> wf_bindings wf)) = true /\
      forallb (ports_declared wf) (wf_bindings wf) = true /\
      wf_bindings wf = wf_bindings example_workflow /\
      wf_name wf = "lsd_resting" /\
      forallb (fun m => chain 9 (wf_bindings wf) scan_infosource m)
        [fmap_infosource; selectfiles; remove_vol; moco; fmap_coreg;
         transform_ts; denoise; sink] = true /\
      forallb (fun n => chain 9 (wf_bindings wf) n sink)
        [scan_infosource; fmap_infosource; selectfiles; remove_vol; moco;
         fmap_coreg; transform_ts; denoise] = true
  | Raise _ => True
  end.
Proof.
  unfold create_lsd_resting, py_truediv.
  destruct (PrimFloat.eqb (2 * TR * highpass) 0);
    cbn [mbind result_bind]; [exact I|].
  destruct (PrimFloat.eqb (2 * TR * lowpass) 0);
    cbn [mbind result_bind]; [exact I|].
  repeat split; vm_compute; reflexivity.
Qed.

(** X8: the constructed graph is in order, and no input port is bound twice. *)
Theorem constructed_graph_in_order wf :
  built = Ok wf ->
  graph_ok wf /\ NoDup (snd <$> wf_bindings wf).
Proof.
  intros Hwf. pose proof create_lsd_resting_checks as Hck.
  rewrite Hwf in Hck. destruct Hck as (Hnd & Hends & _ & Hports & _).
  apply bool_decide_eq_true in Hnd, Hports.
  split; [split; [exact Hnd|] | exact Hports].
  apply Forall_forall. intros b Hb.
  rewrite forallb_forall in Hends.
  specialize (Hends b (proj1 (list_elem_of_In _ _) Hb)).
  apply andb_true_iff in Hends as [H1 H2].
  by apply bool_decide_eq_true in H1, H2.
Qed.

(** X9: the bindings never close a cycle: along every chain of bindings the
    position of the node in the order scan_infosource, fmap_infosource,
    selectfiles, remove_vol, moco, fmap_coreg, transform_ts, denoise, sink
    goes up. *)
Theorem constructed_graph_acyclic wf :
  built = Ok wf ->
  (forall n m, connected (wf_bindings wf) n m ->
     node_id_index n < node_id_index m) /\
  (forall n, ~ connected (wf_bindings wf) n n).
Proof.
  intros Hwf. pose proof create_lsd_resting_checks as Hck.
  rewrite Hwf in Hck. destruct Hck as (_ & _ & Hfw & _).
  assert (Hall : Forall (fun b : binding =>
                   node_id_index b.1.1 < node_id_index b.2.1)
                   (wf_bindings wf)).
  { apply Forall_forall. intros b Hb. rewrite forallb_forall in Hfw.
    apply Nat.ltb_lt, Hfw, list_elem_of_In, Hb. }
  split.
  - apply connected_forward, Hall.
  - intros n Hc. apply (connected_forward _ _ Hall) in Hc. lia.
Qed.

(** X10: every other node consumes, through bindings, from the iterable source
    scan_infosource, and the sink consumes from every other node. *)
Theorem constructed_graph_connected wf :
  built = Ok wf ->
  (forall m, m <> scan_infosource ->
     connected (wf_bindings wf) scan_infosource m) /\
  (forall n, n <> sink -> connected (wf_bindings wf) n sink).
Proof.
  intros Hwf. pose proof create_lsd_resting_checks as Hck.
  rewrite Hwf in Hck.
  destruct Hck as (_ & _ & _ & _ & _ & _ & _ & Hfrom & Hto).
  rewrite forallb_forall in Hfrom, Hto. split.
  - intros m Hm. apply (chain_sound 9), Hfrom.
    destruct m; try (exfalso; by apply Hm); cbn; tauto.
  - intros n Hn. apply (chain_sound 9), Hto.
    destruct n; try (exfalso; by apply Hn); cbn; tauto.
Qed.

(** X11: every binding takes an output its source node declares and feeds an
    input its destination node declares, for the nodes whose interface the
    source spells out. *)
Theorem constructed_ports_declared wf b src dst :
  built = Ok wf ->
  b ∈ wf_bindings wf ->
  find_node wf b.1.1 = Some src -> find_node wf b.2.1 = Some dst ->
  (forall outs, declared_outputs (node_interface src) = Some outs ->
     b.1.2 ∈ outs) /\
  (forall ins, declared_inputs (node_interface dst) = Some ins ->
     b.2.2 ∈ ins).
Proof.
  intros Hwf Hb Hsrc Hdst. pose proof create_lsd_resting_checks as Hck.
  rewrite Hwf in Hck. destruct Hck as (_ & _ & _ & _ & Hdecl & _).
  rewrite forallb_forall in Hdecl.
  specialize (Hdecl b (proj1 (list_elem_of_In _ _) Hb)).
  unfold ports_declared in Hdecl. rewrite Hsrc, Hdst in Hdecl.
  apply andb_true_iff in Hdecl as [Ho Hi]. split.
  - intros outs Houts. rewrite Houts in Ho.
    by apply bool_decide_eq_true in Ho.
  - intros ins Hins. rewrite Hins in Hi.
    by apply bool_decide_eq_true in Hi.
Qed.

End wiring.

(** X13: the graph does not depend on the configuration: two constructions
    yield the same bindings between the same objects of the same classes,
    under the same name. *)
Theorem wiring_independent_of_configuration
    subject working_dir out_dir freesurfer_dir data_dir echo_space te_diff
    vol_to_remove scans epi_resolution TR highpass lowpass
    subject' working_dir' out_dir' freesurfer_dir' data_dir' echo_space'
    te_diff' vol_to_remove' scans' epi_resolution' TR' highpass' lowpass'
    wf wf' :
  create_lsd_resting subject working_dir out_dir freesurfer_dir data_dir
    echo_space te_diff vol_to_remove scans epi_resolution TR highpass
    lowpass = Ok wf ->
  create_lsd_resting subject' working_dir' out_dir' freesurfer_dir'
    data_dir' echo_space' te_diff' vol_to_remove' scans' epi_resolution'
    TR' highpass' lowpass' = Ok wf' ->
  wf_bindings wf = wf_bindings wf' /\
  objects wf = objects wf' /\
  (node_cls <$> wf_nodes wf) = (node_cls <$> wf_nodes wf') /\
  wf_name wf = wf_name wf'.
Proof.
  intros Hwf Hwf'.
  pose proof (create_lsd_resting_checks subject working_dir out_dir
                freesurfer_dir data_dir echo_space te_diff vol_to_remove
                scans epi_resolution TR highpass lowpass) as Hck.
  pose proof (create_lsd_resting_checks subject' working_dir' out_dir'
                freesurfer_dir' data_dir' echo_space' te_diff'
                vol_to_remove' scans' epi_resolution' TR' highpass'
                lowpass') as Hck'.
  pose proof (LsdRestingProofs.create_lsd_resting_structure subject
                working_dir out_dir freesurfer_dir data_dir echo_space
                te_diff vol_to_remove scans epi_resolution TR highpass
                lowpass) as Hst.
  pose proof (LsdRestingProofs.create_lsd_resting_structure subject'
                working_dir' out_dir' freesurfer_dir' data_dir' echo_space'
                te_diff' vol_to_remove' scans' epi_resolution' TR'
                highpass' lowpass') as Hst'.
  rewrite Hwf in Hck, Hst. rewrite Hwf' in Hck', Hst'.
  destruct Hck as (_ & _ & _ & _ & _ & Hb & Hn & _).
  destruct Hck' as (_ & _ & _ & _ & _ & Hb' & Hn' & _).
  destruct Hst as (_ & _ & _ & Hcls & Hobj & _).
  destruct Hst' as (_ & _ & _ & Hcls' & Hobj' & _).
  unfold objects. repeat split; congruence.
Qed.

(** Concrete runs. *)

Lemma example_built :
  create_lsd_resting (VStr "sub01") "/work" "/out" (VStr "/fs")
    (VStr "/data") (VFloat 0.5) (VFloat 0.25) (VInt 5)
    ["rest1a"; "rest1b"] (VFloat 2) 2 0.125 0.5 = Ok example_workflow.
Proof. vm_compute. reflexivity. Qed.

Lemma other_built :
  create_lsd_resting (VStr "sub02") "/scratch" "/results" (VStr "/surf")
    (VStr "/raw") (VFloat 0.25) (VFloat 0.5) (VInt 3)
    ["rest2a"] (VFloat 3) 1 0.5 0.25 = Ok other_workflow.
Proof. vm_compute. reflexivity. Qed.

Lemma connect_keeps_graph_ok_witness :
  graph_ok (connect empty_workflow one_connection) /\
  base_dir (connect empty_workflow one_connection) = "/work".
Proof.
  destruct (connect_keeps_graph_ok one_connection empty_workflow)
    as (Hok & _ & _ & Hbase & _).
  - split; [apply NoDup_nil_2 | apply Forall_nil_2].
  - split; [exact Hok | exact Hbase].
Defined.

Lemma fmap_info_injective_witness : "rest2a" = "rest2a".
Proof.
  apply (fmap_info_injective "rest2a" "rest2a" ("fmap2", "y-"));
    reflexivity.
Defined.

Lemma constructed_graph_in_order_witness :
  graph_ok example_workflow /\
  NoDup (snd <$> wf_bindings example_workflow).
Proof.
  exact (constructed_graph_in_order _ _ _ _ _ _ _ _ _ _ _ _ _ _
           example_built).
Defined.

Lemma constructed_graph_acyclic_witness :
  ~ connected (wf_bindings example_workflow) sink sink.
Proof.
  exact (proj2 (constructed_graph_acyclic _ _ _ _ _ _ _ _ _ _ _ _ _ _
                  example_built) sink).
Defined.

Lemma constructed_graph_connected_witness :
  connected (wf_bindings example_workflow) scan_infosource denoise /\
  connected (wf_bindings example_workflow) remove_vol sink.
Proof.
  destruct (constructed_graph_connected _ _ _ _ _ _ _ _ _ _ _ _ _ _
              example_built) as [Hfrom Hto].
  split; [apply Hfrom | apply Hto]; discriminate.
Defined.

Lemma wiring_independent_of_configuration_witness :
  wf_bindings example_workflow = wf_bindings other_workflow /\
  objects example_workflow = objects other_workflow.
Proof.
  destruct (wiring_independent_of_configuration
              _ _ _ _ _ _ _ _ _ _ _ _ _ _ _ _ _ _ _ _ _ _ _ _ _ _ _ _
              example_built other_built) as (Hb & Ho & _).
  split; [exact Hb | exact Ho].
Defined.

Lemma constructed_ports_declared_witness :
  "func" ∈ (map_to_list templates).*1 /\ "in_file" ∈ ["in_file"; "t_min"].
Proof.
  destruct (constructed_ports_declared _ _ _ _ _ _ _ _ _ _ _ _ _
              example_workflow
              ((selectfiles, "func"), (remove_vol, "in_file"))
              (new_node selectfiles (SelectFiles templates (VStr "/data"))
                 "selectfiles")
              (set_input
                 (new_node remove_vol
                    (Function ["in_file"; "t_min"] ["out_file"]
                       fn_strip_rois_func) "remove_vol")
                 "t_min" (VInt 5))
              example_built) as [Hout Hin].
  - vm_compute.
    repeat first [apply list_elem_of_here | apply list_elem_of_further].
  - vm_compute. reflexivity.
  - vm_compute. reflexivity.
  - split; [by apply Hout | by apply Hin].
Defined.

End LsdRestingExtra.
